(** * Vitrin frontend: session tokens, API client, validation, product list

    A shallow embedding of the client-side logic of the Vitrin single-page
    application, and the properties its specification states about it.

    Source files embedded here:
    - [services/auth.ts]    (class [AuthService])          -> [Module Auth]
    - [services/api.ts]     (axios instance, interceptors) -> [Module Api]
    - [hooks/useAuth.ts]    (hook [useAuth])               -> [Module UseAuth]
    - [hooks/useProducts.ts] (hook [useProducts])          -> [Module UseProducts]
    - [utils/validation.ts]                                -> [Module Validation]
    - [App.tsx]                     (screens and their guard) -> [Module App]
    - [components/HomeFeed.tsx]     (category counts)    -> [Module HomeFeed]
    - [components/AddProduct.tsx]   (tags and images)    -> [Module AddProduct]
    - [components/LoginSignup.tsx]  (the sign-up form)   -> [Module LoginSignup]
    - [components/ProductDetail.tsx] (upvote and comment) -> [Module ProductDetail]

    Conventions.
    - A JavaScript string is modelled by [string], the sequence of its code
      units (restricted to the 8-bit range of [ascii]).
    - A JavaScript number that the code uses as an integer (ids, counters,
      HTTP status codes, byte sizes) is modelled by [Z].  Where the code
      adds or subtracts, the result is rounded as a double-precision number
      is ([JS.number_add], [JS.number_sub]): exact up to 2^53 in magnitude,
      the nearest representable integer beyond.
    - An object literal inherits the members of [Object.prototype]: a read
      [o[key]] that finds no own property of that name finds the inherited
      member when [key] names one ([JS.is_prototype_member]).
    - [T | null] and optional fields are [option T].
    - [localStorage] is a finite map from keys to strings.
    - Writes to [localStorage] succeed (no quota error), and no other
      resource limit of the engine (memory, call stack) is reached.
    - An [async] function that talks to the network takes the answer of the
      network as an argument and returns the new state with its outcome. *)

From Stdlib Require Import ZArith Lia Ascii String List.
From stdpp Require Import base option strings gmap list.

Local Open Scope Z_scope.
Local Open Scope string_scope.

(* ===================================================================== *)
(** * JavaScript values                                                   *)
(* ===================================================================== *)

Module JS.

(** Truthiness of a string: only the empty string is falsy. *)
Definition truthy (s : string) : bool :=
  match s with
  | EmptyString => false
  | String _ _ => true
  end.

(** Truthiness of a [string | null | undefined]. *)
Definition truthy_opt (o : option string) : bool :=
  match o with
  | Some s => truthy s
  | None => false
  end.

(** [o || d] where [o : string | undefined] and [d] is a string. *)
Definition or_else (o : option string) (d : string) : string :=
  match o with
  | Some s => if truthy s then s else d
  | None => d
  end.

(** [o || null] where [o : string | undefined]. *)
Definition or_null (o : option string) : option string :=
  match o with
  | Some s => if truthy s then Some s else None
  | None => None
  end.

(** The text a template literal [`${o}`] gives for [o : string | null]. *)
Definition template (o : option string) : string :=
  match o with
  | Some s => s
  | None => "null"
  end.

(** An exception value: its constructor name and its message.
    [new Error(m)] is [Error m]. *)
Record Exn := { name : string; message : string }.

Definition Error (m : string) : Exn := {| name := "Error"; message := m |}.

(** How a call ends: it returns a value or throws (an [async] function
    resolves or rejects). *)
Inductive Outcome (A : Type) : Type :=
| Return (a : A)
| Throw (e : Exn).
Arguments Return {A} a.
Arguments Throw {A} e.

Definition TypeError (m : string) : Exn :=
  {| name := "TypeError"; message := m |}.

(** The names of the members of [Object.prototype], which every object
    literal inherits. *)
Definition Object_prototype_members : list string :=
  [ "constructor"; "__defineGetter__"; "__defineSetter__";
    "hasOwnProperty"; "__lookupGetter__"; "__lookupSetter__";
    "isPrototypeOf"; "propertyIsEnumerable"; "toString"; "valueOf";
    "__proto__"; "toLocaleString" ].

Definition is_prototype_member (key : string) : bool :=
  existsb (String.eqb key) Object_prototype_members.

(** The integer a double-precision number holds in place of [z]: [z] itself
    up to 2^53 in magnitude; beyond, the nearest integer with 53 significant
    bits, a tie going to the one whose last kept bit is 0.  The code
    embedded here only adds and subtracts 1, which never takes a finite
    double to an infinite one. *)
Definition round_to_double (z : Z) : Z :=
  let m := Z.abs z in
  if (m <=? 2 ^ 53)%Z then z
  else
    let k := (Z.log2 m - 52)%Z in
    let q := (m / 2 ^ k)%Z in
    let r := (m mod 2 ^ k)%Z in
    let half := (2 ^ (k - 1))%Z in
    let q' :=
      if (r <? half)%Z then q
      else if (half <? r)%Z then (q + 1)%Z
      else if Z.even q then q else (q + 1)%Z in
    (Z.sgn z * (q' * 2 ^ k))%Z.

(** [a + b] and [a - b] on numbers that hold integers. *)
Definition number_add (a b : Z) : Z := round_to_double (a + b).
Definition number_sub (a b : Z) : Z := round_to_double (a - b).

(** [Number.isSafeInteger]: the integers on which adding and subtracting 1
    is exact. *)
Definition safe_integer (z : Z) : Prop :=
  (- (2 ^ 53) < z < 2 ^ 53)%Z.

End JS.

(* ===================================================================== *)
(** * services/auth.ts                                                    *)
(* ===================================================================== *)

Module Auth.
Import JS.

Record AuthTokens := { access : string; refresh : string }.

Record User := {
  id : Z;
  username : string;
  email : string;
  first_name : string;
  last_name : string
}.

Record AuthResponse := {
  message : string;
  user : User;
  tokens : AuthTokens
}.

(** The argument of [register]. *)
Record UserData := {
  ud_username : string;
  ud_email : string;
  ud_password : string;
  ud_password_confirm : string;
  ud_first_name : string;
  ud_last_name : string
}.

(** The body of a successful answer of the refresh endpoint:
    the code reads [data.access]. *)
Record RefreshData := { new_access : string }.

(** The body of an error answer, as far as the code reads it:
    [errorData.detail] and [errorData.error]. *)
Record ErrorData := { detail : option string; error : option string }.

(** What [await fetch(...)] followed by [await response.json()] can give.
    - [NetworkError e]: [fetch] itself rejects with [e];
    - [NotOk body]: a response with [response.ok = false];
    - [Ok body]: a response with [response.ok = true].
    A body is [inl e] when [response.json()] rejects with [e] (the body is
    not JSON), and [inr d] when it parses to [d]. *)
Inductive Reply (A : Type) : Type :=
| NetworkError (e : Exn)
| NotOk (body : Exn + ErrorData)
| Ok (body : Exn + A).
Arguments NetworkError {A} e.
Arguments NotOk {A} body.
Arguments Ok {A} body.

(** The singleton [AuthService] with the browser's [localStorage]:
    [svc_tokens] is [this.tokens], [svc_user] is [this.user]. *)
Record State := {
  svc_tokens : option AuthTokens;
  svc_user : option User;
  localStorage : gmap string string
}.

Definition set_tokens (t : option AuthTokens) (s : State) : State :=
  {| svc_tokens := t; svc_user := svc_user s; localStorage := localStorage s |}.

Definition set_user (u : option User) (s : State) : State :=
  {| svc_tokens := svc_tokens s; svc_user := u; localStorage := localStorage s |}.

Definition setItem (k v : string) (s : State) : State :=
  {| svc_tokens := svc_tokens s; svc_user := svc_user s;
     localStorage := <[k := v]> (localStorage s) |}.

Definition removeItem (k : string) (s : State) : State :=
  {| svc_tokens := svc_tokens s; svc_user := svc_user s;
     localStorage := delete k (localStorage s) |}.

Definition getItem (k : string) (s : State) : option string :=
  localStorage s !! k.

(** [private storeTokens(tokens)] *)
Definition storeTokens (t : AuthTokens) (s : State) : State :=
  set_tokens (Some t)
    (setItem "refresh_token" (refresh t)
       (setItem "access_token" (access t) s)).

(** [private loadTokensFromStorage()] *)
Definition loadTokensFromStorage (s : State) : State :=
  let accessToken := getItem "access_token" s in
  let refreshToken := getItem "refresh_token" s in
  match accessToken, refreshToken with
  | Some a, Some r =>
      if truthy a && truthy r
      then set_tokens (Some {| access := a; refresh := r |}) s
      else s
  | _, _ => s
  end.

(** [private constructor()], run once by [getInstance()] on the
    [localStorage] the browser holds at that time. *)
Definition getInstance (ls : gmap string string) : State :=
  loadTokensFromStorage
    {| svc_tokens := None; svc_user := None; localStorage := ls |}.

(** [getAccessToken()]: [this.tokens?.access || null] *)
Definition getAccessToken (s : State) : option string :=
  or_null (access <$> svc_tokens s).

(** [getRefreshToken()]: [this.tokens?.refresh || null] *)
Definition getRefreshToken (s : State) : option string :=
  or_null (refresh <$> svc_tokens s).

(** [isAuthenticated()]: [!!this.tokens?.access] *)
Definition isAuthenticated (s : State) : bool :=
  truthy_opt (access <$> svc_tokens s).

(** [logout()] *)
Definition logout (s : State) : State :=
  removeItem "user"
    (removeItem "refresh_token"
       (removeItem "access_token"
          (set_user None (set_tokens None s)))).

(** [getAuthHeader()]: the object [{ Authorization: ... }] or [{}]. *)
Definition getAuthHeader (s : State) : gmap string string :=
  match getAccessToken s with
  | Some token => {[ "Authorization" := "Bearer " +:+ token ]}
  | None => ∅
  end.

(** [refreshAccessToken()]. [fetch r] is the answer of the network to the
    POST of [{ refresh: r }] to [/users/auth/refresh/]. Everything thrown
    inside the [try] block is caught and gives [false]. *)
Definition refreshAccessToken
    (fetch : string -> Reply RefreshData) (s : State) : State * bool :=
  match getRefreshToken s with
  | None => (s, false)
  | Some refreshToken =>
      match fetch refreshToken with
      | NetworkError _ => (s, false)
      | NotOk _ => (s, false)
      | Ok (inl _) => (s, false)
      | Ok (inr data) =>
          (storeTokens {| access := new_access data;
                          refresh := refreshToken |} s, true)
      end
  end.

Section WithJSON.
(** [JSON.stringify] and [JSON.parse] on user records are the
    platform's. [JSON_parse str] is [None] when [JSON.parse] throws or
    gives [null]. *)
Variable JSON_stringify : User -> string.
Variable JSON_parse : string -> option User.

(** [setUser(user)] *)
Definition setUser (u : User) (s : State) : State :=
  setItem "user" (JSON_stringify u) (set_user (Some u) s).

(** [getUser()]: reads [this.user], and fills it from [localStorage]
    when it is [null]. *)
Definition getUser (s : State) : State * option User :=
  match svc_user s with
  | Some u => (s, Some u)
  | None =>
      match getItem "user" s with
      | Some userStr =>
          if truthy userStr
          then (set_user (JSON_parse userStr) s, JSON_parse userStr)
          else (s, None)
      | None => (s, None)
      end
  end.

(** [login(username, password)]. [fetch username password] is the
    answer of the network to the POST to [/users/auth/login/]. *)
Definition login (fetch : string -> string -> Reply AuthResponse)
    (username password : string) (s : State)
    : State * Outcome AuthResponse :=
  match fetch username password with
  | NetworkError e => (s, Throw e)
  | NotOk (inl e) => (s, Throw e)
  | NotOk (inr errorData) =>
      (s, Throw (Error (or_else (detail errorData) "Login failed")))
  | Ok (inl e) => (s, Throw e)
  | Ok (inr data) =>
      (setUser (user data) (storeTokens (tokens data) s), Return data)
  end.

(** [register(userData)] *)
Definition register (fetch : UserData -> Reply AuthResponse)
    (userData : UserData) (s : State) : State * Outcome AuthResponse :=
  match fetch userData with
  | NetworkError e => (s, Throw e)
  | NotOk (inl e) => (s, Throw e)
  | NotOk (inr errorData) =>
      (s, Throw (Error (or_else (detail errorData) "Registration failed")))
  | Ok (inl e) => (s, Throw e)
  | Ok (inr data) =>
      (setUser (user data) (storeTokens (tokens data) s), Return data)
  end.

(** [googleLogin(credential)] *)
Definition googleLogin (fetch : string -> Reply AuthResponse)
    (credential : string) (s : State) : State * Outcome AuthResponse :=
  match fetch credential with
  | NetworkError e => (s, Throw e)
  | NotOk (inl e) => (s, Throw e)
  | NotOk (inr errorData) =>
      (s, Throw (Error (or_else (error errorData) "Google login failed")))
  | Ok (inl e) => (s, Throw e)
  | Ok (inr data) =>
      (setUser (user data) (storeTokens (tokens data) s), Return data)
  end.

End WithJSON.

End Auth.

(* ===================================================================== *)
(** * services/api.ts                                                     *)
(* ===================================================================== *)

Module Api.
Import JS.

(** The request configuration axios hands through the interceptors.
    [params] and [data] are payloads the client never inspects; they are
    kept as text. *)
Record RequestConfig := {
  method : string;
  url : string;
  params : option string;
  data : option string;
  headers : gmap string string
}.

Definition set_header (k v : string) (c : RequestConfig) : RequestConfig :=
  {| method := method c; url := url c; params := params c; data := data c;
     headers := <[k := v]> (headers c) |}.

Definition Authorization (c : RequestConfig) : option string :=
  headers c !! "Authorization".

(** [response.status] and [response.data]; the latter is named [body]
    here, [data] being the payload of a request. *)
Record AxiosResponse := { status : Z; body : string }.

(** The error axios rejects with: [error.message], [error.response]
    (absent when no response arrived) and [error.config]. *)
Record AxiosError := {
  err_message : string;
  response : option AxiosResponse;
  config : RequestConfig
}.

(** A settled promise of the client. *)
Inductive Settled (A : Type) : Type :=
| Fulfilled (a : A)
| Rejected (e : AxiosError).
Arguments Fulfilled {A} a.
Arguments Rejected {A} e.

(** What the transport of axios does with a request it sent: it resolves
    with a response, or fails with a message and, when the server
    answered, the response. *)
Inductive Answer :=
| Resolves (r : AxiosResponse)
| Fails (msg : string) (r : option AxiosResponse).

(** The remote API, as the client sees it: the answer to the request sent
    at a given time, and the answer of the refresh endpoint to a refresh
    token posted at a given time. *)
Record Network := {
  server : nat -> RequestConfig -> Answer;
  refresh_endpoint : nat -> string -> Auth.Reply Auth.RefreshData
}.

(** The browser: the [authService] singleton with [localStorage],
    [window.location.href], and a clock that advances each time the client
    turns to the network; the answers of the network may depend on it. *)
Record Browser := {
  auth : Auth.State;
  location_href : string;
  clock : nat
}.

Definition set_auth (s : Auth.State) (w : Browser) : Browser :=
  {| auth := s; location_href := location_href w; clock := clock w |}.

Definition set_location_href (h : string) (w : Browser) : Browser :=
  {| auth := auth w; location_href := h; clock := clock w |}.

Definition tick (w : Browser) : Browser :=
  {| auth := auth w; location_href := location_href w; clock := S (clock w) |}.

(** What an observer of the client sees, in order. *)
Inductive Event :=
| Sent (c : RequestConfig)         (* a request leaves the client *)
| Answered (a : Answer)            (* its answer arrives *)
| Refresh (refreshed : bool)       (* [authService.refreshAccessToken()] ran *)
| Navigate (href : string).        (* [window.location.href] was assigned *)

(** A finished call of the client. *)
Record Run (A : Type) := {
  final : Browser;
  events : list Event;
  result : Settled A
}.
Arguments final {A} _.
Arguments events {A} _.
Arguments result {A} _.

Definition after {A} (es : list Event) (r : option (Run A)) : option (Run A) :=
  match r with
  | Some r' => Some {| final := final r'; events := es ++ events r';
                       result := result r' |}
  | None => None
  end.

(** Request interceptor (fulfilled handler). *)
Definition request_interceptor (s : Auth.State) (config : RequestConfig)
    : RequestConfig :=
  match Auth.getAccessToken s with
  | Some token => set_header "Authorization" ("Bearer " +:+ token) config
  | None => config
  end.

(** [error.response?.status === 401] *)
Definition status_is_401 (error : AxiosError) : bool :=
  match response error with
  | Some r => (status r =? 401)%Z
  | None => false
  end.

(** Response interceptor (rejected handler). [api] is the axios instance
    itself, which the handler calls to send [originalRequest] again. *)
Definition response_interceptor_rejected
    (api : Browser -> RequestConfig -> option (Run AxiosResponse))
    (net : Network) (w : Browser) (error : AxiosError)
    : option (Run AxiosResponse) :=
  if status_is_401 error then
    let '(s, refreshed) :=
      Auth.refreshAccessToken (refresh_endpoint net (clock w)) (auth w) in
    let w1 := tick (set_auth s w) in
    if refreshed then
      let originalRequest :=
        set_header "Authorization"
          ("Bearer " +:+ template (Auth.getAccessToken (auth w1)))
          (config error) in
      after [Refresh true] (api w1 originalRequest)
    else
      let w2 := set_auth (Auth.logout (auth w1)) w1 in
      let w3 := set_location_href "/login" w2 in
      Some {| final := w3; events := [Refresh false; Navigate "/login"];
              result := Rejected error |}
  else
    Some {| final := w; events := []; result := Rejected error |}.

(** The axios instance [api], called on a request configuration: request
    interceptor, transport, response interceptor. The fulfilled handler of
    the response interceptor is the identity. [fuel] bounds the number of
    requests sent; [None] means the bound was reached. *)
Fixpoint api (fuel : nat) (net : Network) (w : Browser)
    (config : RequestConfig) : option (Run AxiosResponse) :=
  match fuel with
  | O => None
  | S fuel' =>
      let config' := request_interceptor (auth w) config in
      let answer := server net (clock w) config' in
      let w1 := tick w in
      match answer with
      | Resolves r =>
          Some {| final := w1; events := [Sent config'; Answered answer];
                  result := Fulfilled r |}
      | Fails msg r =>
          after [Sent config'; Answered answer]
            (response_interceptor_rejected (api fuel' net) net w1
               {| err_message := msg; response := r; config := config' |})
      end
  end.

(** The defaults of [axios.create]. *)
Definition default_headers : gmap string string :=
  {[ "Content-Type" := "application/json" ]}.

Definition new_request (m endpoint : string) (ps d : option string)
    : RequestConfig :=
  {| method := m; url := endpoint; params := ps; data := d;
     headers := default_headers |}.

(** [return response.data] after [await api.m(...)]: a rejection of the
    awaited promise is the rejection of the service function. *)
Definition response_data (r : option (Run AxiosResponse))
    : option (Run string) :=
  match r with
  | Some r' =>
      Some {| final := final r'; events := events r';
              result := match result r' with
                        | Fulfilled resp => Fulfilled (body resp)
                        | Rejected e => Rejected e
                        end |}
  | None => None
  end.





Definition delete (fuel : nat) (net : Network) (w : Browser)
    (endpoint : string) : option (Run string) :=
  response_data (api fuel net w (new_request "delete" endpoint None None)).

End Api.

(* ===================================================================== *)
(** * hooks/useAuth.ts                                                    *)
(* ===================================================================== *)

Module UseAuth.

(** The three [useState] cells of the hook. *)
Record HookState := {
  user : option Auth.User;
  isAuthenticated : bool;
  isLoading : bool
}.

(** [logout] of the hook. *)
Definition logout (w : Api.Browser) (h : HookState)
    : Api.Browser * HookState :=
  (Api.set_auth (Auth.logout (Api.auth w)) w,
   {| user := None; isAuthenticated := false; isLoading := isLoading h |}).

(** [refreshToken] of the hook. [Auth.refreshAccessToken] catches
    everything itself, so the [catch] branch of the hook is never taken. *)
Definition refreshToken (fetch : string -> Auth.Reply Auth.RefreshData)
    (w : Api.Browser) (h : HookState) : Api.Browser * HookState * bool :=
  let '(s, success) := Auth.refreshAccessToken fetch (Api.auth w) in
  let w1 := Api.set_auth s w in
  if negb success
  then (logout w1 h, success)
  else (w1, h, success).

Section WithJSON.
Variable JSON_stringify : Auth.User -> string.
Variable JSON_parse : string -> option Auth.User.

(** [checkAuth], the effect the hook runs when it mounts. *)
Definition checkAuth (w : Api.Browser) (h : HookState)
    : Api.Browser * HookState :=
  let authenticated := Auth.isAuthenticated (Api.auth w) in
  let '(s, currentUser) := Auth.getUser JSON_parse (Api.auth w) in
  (Api.set_auth s w,
   {| user := currentUser; isAuthenticated := authenticated;
      isLoading := false |}).

(** [login] of the hook: [setIsLoading(true)], the call of the service,
    the two setters on success, the error thrown again on failure, and
    [setIsLoading(false)] in both cases. *)
Definition login (fetch : string -> string -> Auth.Reply Auth.AuthResponse)
    (username password : string) (w : Api.Browser) (h : HookState)
    : Api.Browser * HookState * JS.Outcome unit :=
  match Auth.login JSON_stringify fetch username password (Api.auth w) with
  | (s, JS.Return response) =>
      (Api.set_auth s w,
       {| user := Some (Auth.user response); isAuthenticated := true;
          isLoading := false |},
       JS.Return tt)
  | (s, JS.Throw error) =>
      (Api.set_auth s w,
       {| user := user h; isAuthenticated := isAuthenticated h;
          isLoading := false |},
       JS.Throw error)
  end.

(** [register] of the hook. *)
Definition register (fetch : Auth.UserData -> Auth.Reply Auth.AuthResponse)
    (userData : Auth.UserData) (w : Api.Browser) (h : HookState)
    : Api.Browser * HookState * JS.Outcome unit :=
  match Auth.register JSON_stringify fetch userData (Api.auth w) with
  | (s, JS.Return response) =>
      (Api.set_auth s w,
       {| user := Some (Auth.user response); isAuthenticated := true;
          isLoading := false |},
       JS.Return tt)
  | (s, JS.Throw error) =>
      (Api.set_auth s w,
       {| user := user h; isAuthenticated := isAuthenticated h;
          isLoading := false |},
       JS.Throw error)
  end.

(** [googleLogin] of the hook. *)
Definition googleLogin (fetch : string -> Auth.Reply Auth.AuthResponse)
    (credential : string) (w : Api.Browser) (h : HookState)
    : Api.Browser * HookState * JS.Outcome unit :=
  match Auth.googleLogin JSON_stringify fetch credential (Api.auth w) with
  | (s, JS.Return response) =>
      (Api.set_auth s w,
       {| user := Some (Auth.user response); isAuthenticated := true;
          isLoading := false |},
       JS.Return tt)
  | (s, JS.Throw error) =>
      (Api.set_auth s w,
       {| user := user h; isAuthenticated := isAuthenticated h;
          isLoading := false |},
       JS.Throw error)
  end.

End WithJSON.

End UseAuth.

(* ===================================================================== *)
(** * hooks/useProducts.ts                                                *)
(* ===================================================================== *)

Module UseProducts.

(** [category: { name: string } | string] *)
Inductive Category :=
| CategoryObject (name : string)
| CategoryName (name : string).

Record Author := {
  username : string;
  first_name : option string;
  last_name : option string
}.

(** [interface Product]. Elements of [comments] are payloads the hook
    never inspects; they are kept as text. *)
Record Product := {
  id : Z;
  title : string;
  short_description : string;
  description : option string;
  category : Category;
  author : Author;
  image : option string;
  website_url : option string;
  demo_url : option string;
  upvote_count : Z;
  view_count : Z;
  comment_count : Z;
  is_upvoted : bool;
  created_at : string;
  tags : option (list string);
  comments : option (list string)
}.

(** The object literal
    [{ ...product, is_upvoted: !product.is_upvoted,
       upvote_count: product.is_upvoted ? product.upvote_count - 1
                                        : product.upvote_count + 1 }]. *)
Definition toggled (product : Product) : Product :=
  {| id := id product;
     title := title product;
     short_description := short_description product;
     description := description product;
     category := category product;
     author := author product;
     image := image product;
     website_url := website_url product;
     demo_url := demo_url product;
     upvote_count :=
       if is_upvoted product
       then JS.number_sub (upvote_count product) 1
       else JS.number_add (upvote_count product) 1;
     view_count := view_count product;
     comment_count := comment_count product;
     is_upvoted := negb (is_upvoted product);
     created_at := created_at product;
     tags := tags product;
     comments := comments product |}.

(** The updater handed to [setProducts] by [upvoteProduct]. *)
Definition upvote_updater (productId : Z) (prev : list Product)
    : list Product :=
  List.map
    (fun product =>
       if (id product =? productId)%Z then toggled product else product)
    prev.

(** [upvoteProduct(productId)]. [posted] is how
    [await productService.upvoteProduct(productId)] settled; [products]
    is the state cell of the hook. A rejection is thrown again and the
    cell is not written. *)
Definition upvoteProduct (posted : Api.Settled string) (productId : Z)
    (products : list Product) : list Product * Api.Settled unit :=
  match posted with
  | Api.Fulfilled _ =>
      (upvote_updater productId products, Api.Fulfilled tt)
  | Api.Rejected err => (products, Api.Rejected err)
  end.

(** The object literal
    [{ ...product, comments: [...(product.comments || []), newComment],
       comment_count: product.comment_count + 1 }]. *)
Definition commented (newComment : string) (product : Product) : Product :=
  {| id := id product;
     title := title product;
     short_description := short_description product;
     description := description product;
     category := category product;
     author := author product;
     image := image product;
     website_url := website_url product;
     demo_url := demo_url product;
     upvote_count := upvote_count product;
     view_count := view_count product;
     comment_count := JS.number_add (comment_count product) 1;
     is_upvoted := is_upvoted product;
     created_at := created_at product;
     tags := tags product;
     comments :=
       Some (match comments product with
             | Some cs => cs
             | None => []
             end ++ [newComment])%list |}.

(** The updater handed to [setProducts] by [commentProduct]. *)
Definition comment_updater (productId : Z) (newComment : string)
    (prev : list Product) : list Product :=
  List.map
    (fun product =>
       if (id product =? productId)%Z
       then commented newComment product
       else product)
    prev.

(** [commentProduct(productId, content)]. [posted] is how
    [await productService.commentProduct(productId, { content })] settled:
    the new comment, as the API returns it, or a rejection, which is thrown
    again. *)
Definition commentProduct (posted : Api.Settled string) (productId : Z)
    (products : list Product) : list Product * Api.Settled string :=
  match posted with
  | Api.Fulfilled newComment =>
      (comment_updater productId newComment products,
       Api.Fulfilled newComment)
  | Api.Rejected err => (products, Api.Rejected err)
  end.

(** [createProduct(productData)]. [posted] is how
    [await productService.createProduct(productData)] settled. *)
Definition createProduct (posted : Api.Settled Product)
    (products : list Product) : list Product * Api.Settled Product :=
  match posted with
  | Api.Fulfilled newProduct =>
      (newProduct :: products, Api.Fulfilled newProduct)
  | Api.Rejected err => (products, Api.Rejected err)
  end.

End UseProducts.

(* ===================================================================== *)
(** * Regular expressions                                                 *)
(* ===================================================================== *)

(** The regular expressions of [utils/validation.ts] use character
    classes, concatenation and [+] only. They are matched here with
    derivatives. *)
Module Regex.

Inductive re :=
| Never                           (* matches nothing *)
| Empty                           (* matches the empty string *)
| Class (p : ascii -> bool)       (* one code unit of a class *)
| Cat (r1 r2 : re)
| Alt (r1 r2 : re)
| Star (r : re).

Fixpoint nullable (r : re) : bool :=
  match r with
  | Never => false
  | Empty => true
  | Class _ => false
  | Cat r1 r2 => nullable r1 && nullable r2
  | Alt r1 r2 => nullable r1 || nullable r2
  | Star _ => true
  end.

Fixpoint deriv (a : ascii) (r : re) : re :=
  match r with
  | Never => Never
  | Empty => Never
  | Class p => if p a then Empty else Never
  | Cat r1 r2 =>
      if nullable r1
      then Alt (Cat (deriv a r1) r2) (deriv a r2)
      else Cat (deriv a r1) r2
  | Alt r1 r2 => Alt (deriv a r1) (deriv a r2)
  | Star r1 => Cat (deriv a r1) (Star r1)
  end.

(** The whole string matches [r]. *)
Fixpoint matches (r : re) (s : string) : bool :=
  match s with
  | EmptyString => nullable r
  | String a s' => matches (deriv a r) s'
  end.

(** [r+] *)
Definition Plus (r : re) : re := Cat r (Star r).

(** A literal code unit. *)
Definition Lit (c : ascii) : re := Class (Ascii.eqb c).

Definition any : re := Class (fun _ => true).

(** [/^r$/.test(s)] (no [m] flag: [^] and [$] are the ends of [s]). *)
Definition test_anchored (r : re) (s : string) : bool := matches r s.

(** [/r/.test(s)]: [r] matches somewhere in [s]. *)
Definition test (r : re) (s : string) : bool :=
  matches (Cat (Star any) (Cat r (Star any))) s.

Definition code (a : ascii) : nat := nat_of_ascii a.

Definition in_range (lo hi : ascii) (a : ascii) : bool :=
  (code lo <=? code a)%nat && (code a <=? code hi)%nat.

(** [\s]: white space and line terminators (those below U+0100). *)
Definition is_space (a : ascii) : bool :=
  let n := code a in
  ((9 <=? n)%nat && (n <=? 13)%nat) || (n =? 32)%nat || (n =? 160)%nat.

(** [\d] *)
Definition is_digit (a : ascii) : bool := in_range "0" "9" a.

(** [[A-Z]] *)
Definition is_upper (a : ascii) : bool := in_range "A" "Z" a.

(** [[a-z]] *)
Definition is_lower (a : ascii) : bool := in_range "a" "z" a.

(** [[a-zA-Z0-9_]] *)
Definition is_word (a : ascii) : bool :=
  is_lower a || is_upper a || is_digit a || Ascii.eqb a "_".

(** [[^\s@]] *)
Definition not_space_at (a : ascii) : bool :=
  negb (is_space a || Ascii.eqb a "@").

End Regex.

(* ===================================================================== *)
(** * utils/validation.ts                                                 *)
(* ===================================================================== *)

Module Validation.
Import Regex.

Record ValidationResult := {
  isValid : bool;
  errors : list string
}.

(** [result.errors], for use where a local variable is named [errors]. *)
Definition result_errors (result : ValidationResult) : list string :=
  errors result.

(** [s.length] *)
Definition length (s : string) : Z := Z.of_nat (String.length s).

(** [errors.length === 0] *)
Definition no_errors (errors : list string) : bool :=
  (List.length errors =? 0)%nat.

(** [s.trimEnd()] and [s.trimStart()]; [trim] is both. *)
Fixpoint trimEnd (s : string) : string :=
  match s with
  | EmptyString => EmptyString
  | String a s' =>
      match trimEnd s' with
      | EmptyString => if is_space a then EmptyString else String a EmptyString
      | t => String a t
      end
  end.

Fixpoint trimStart (s : string) : string :=
  match s with
  | EmptyString => EmptyString
  | String a s' => if is_space a then trimStart s' else s
  end.

Definition trim (s : string) : string := trimEnd (trimStart s).

(** [errors.push(e)] when [c] holds. *)
Definition push_if (c : bool) (e : string) (errors : list string)
    : list string :=
  if c then (errors ++ [e])%list else errors.

(** [/^[^\s@]+@[^\s@]+\.[^\s@]+$/] *)
Definition emailRegex : re :=
  Cat (Plus (Class not_space_at))
    (Cat (Lit "@")
       (Cat (Plus (Class not_space_at))
          (Cat (Lit ".") (Plus (Class not_space_at))))).

Definition validateEmail (email : string) : ValidationResult :=
  let isValid := test_anchored emailRegex email in
  {| isValid := isValid;
     errors := if isValid then [] else ["Please enter a valid email address"] |}.

Definition validatePassword (password : string) : ValidationResult :=
  let errors := [] in
  let errors :=
    push_if (length password <? 8)%Z
      "Password must be at least 8 characters long" errors in
  let errors :=
    push_if (negb (test (Class is_upper) password))
      "Password must contain at least one uppercase letter" errors in
  let errors :=
    push_if (negb (test (Class is_lower) password))
      "Password must contain at least one lowercase letter" errors in
  let errors :=
    push_if (negb (test (Class is_digit) password))
      "Password must contain at least one number" errors in
  {| isValid := no_errors errors; errors := errors |}.

Definition validateUsername (username : string) : ValidationResult :=
  let errors := [] in
  let errors :=
    push_if (length username <? 3)%Z
      "Username must be at least 3 characters long" errors in
  let errors :=
    push_if (length username >? 30)%Z
      "Username must be less than 30 characters" errors in
  let errors :=
    push_if (negb (test_anchored (Plus (Class is_word)) username))
      "Username can only contain letters, numbers, and underscores" errors in
  {| isValid := no_errors errors; errors := errors |}.

Definition validateProductTitle (title : string) : ValidationResult :=
  let errors := [] in
  let errors :=
    push_if (negb (JS.truthy (trim title)))
      "Product title is required" errors in
  let errors :=
    push_if (length title <? 3)%Z
      "Product title must be at least 3 characters long" errors in
  let errors :=
    push_if (length title >? 200)%Z
      "Product title must be less than 200 characters" errors in
  {| isValid := no_errors errors; errors := errors |}.

Definition validateProductDescription (description : string)
    : ValidationResult :=
  let errors := [] in
  let errors :=
    push_if (negb (JS.truthy (trim description)))
      "Product description is required" errors in
  let errors :=
    push_if (length description <? 50)%Z
      "Product description must be at least 50 characters long" errors in
  let errors :=
    push_if (length description >? 2000)%Z
      "Product description must be less than 2000 characters" errors in
  {| isValid := no_errors errors; errors := errors |}.

Definition validateSearchQuery (query : string) : ValidationResult :=
  let errors := [] in
  let errors :=
    push_if (negb (JS.truthy (trim query)))
      "Search query is required" errors in
  let errors :=
    push_if (length query <? 2)%Z
      "Search query must be at least 2 characters long" errors in
  let errors :=
    push_if (length query >? 100)%Z
      "Search query must be less than 100 characters" errors in
  {| isValid := no_errors errors; errors := errors |}.

(** What [rules[field]] finds in the table of rules, an object literal:
    the rule stored under [field]; else, when [field] names a member of
    [Object.prototype], that inherited member, which is truthy; else
    [undefined]. *)
Inductive Found (V : Type) : Type :=
| OwnRule (rule : V -> ValidationResult)
| InheritedMember
| NoRule.
Arguments OwnRule {V} rule.
Arguments InheritedMember {V}.
Arguments NoRule {V}.

Definition rule_at {V : Type} (rules : gmap string (V -> ValidationResult))
    (field : string) : Found V :=
  match rules !! field with
  | Some rule => OwnRule rule
  | None => if JS.is_prototype_member field then InheritedMember else NoRule
  end.

Section Form.
Context {V : Type}.

(** One turn of the loop of [validateForm] on an inherited member:
    [rules[field](value)] calls the member of that name on [rules], then
    [!result.isValid] is tested and [result.errors] is spread into
    [errors].  What that does is JavaScript's, for each member and each
    kind of value: it throws, or it ends with some errors pushed (none when
    [result.isValid] is truthy). *)
Variable inherited_rule :
  string -> gmap string (V -> ValidationResult) -> V ->
  JS.Outcome (list string).

(** The loop [for (const [field, value] of Object.entries(data))], started
    with [errors]. *)
Fixpoint collect (rules : gmap string (V -> ValidationResult))
    (entries : list (string * V)) (errors : list string)
    : JS.Outcome (list string) :=
  match entries with
  | [] => JS.Return errors
  | (field, value) :: entries =>
      match rule_at rules field with
      | OwnRule rule =>
          let result := rule value in
          collect rules entries
            (if negb (isValid result)
             then (errors ++ result_errors result)%list
             else errors)
      | InheritedMember =>
          match inherited_rule field rules value with
          | JS.Return pushed => collect rules entries (errors ++ pushed)%list
          | JS.Throw e => JS.Throw e
          end
      | NoRule => collect rules entries errors
      end
  end.

(** [validateForm(data, rules)]. [data] is given by [Object.entries(data)],
    in its order; [rules] by its own properties. *)
Definition validateForm (data : list (string * V))
    (rules : gmap string (V -> ValidationResult))
    : JS.Outcome ValidationResult :=
  match collect rules data [] with
  | JS.Return errors =>
      JS.Return {| isValid := no_errors errors; errors := errors |}
  | JS.Throw e => JS.Throw e
  end.

End Form.

(** [s.replace(/[<>]/g, '')] *)
Fixpoint remove_angle_brackets (s : string) : string :=
  match s with
  | EmptyString => EmptyString
  | String a s' =>
      if Ascii.eqb a "<" || Ascii.eqb a ">"
      then remove_angle_brackets s'
      else String a (remove_angle_brackets s')
  end.

Definition sanitizeInput (input : string) : string :=
  remove_angle_brackets (trim input).

(** [File], as far as [validateFile] reads it. *)
Record File := { size : Z; type : string }.

Record FileOptions := {
  maxSize : option Z;
  allowedTypes : option (list string)
}.

(** [options = {}] *)
Definition no_options : FileOptions :=
  {| maxSize := None; allowedTypes := None |}.

Section Platform.
(** [new URL(url)] is the browser's parser: [URL_parses url] tells
    whether it accepts [url] (it throws otherwise). *)
Variable URL_parses : string -> bool.

(** [formatFileSize] computes its text with floating-point logarithms
    and [toFixed]; the text is taken as given. *)
Variable formatFileSize : Z -> string.

Definition validateUrl (url : string) : ValidationResult :=
  if URL_parses url
  then {| isValid := true; errors := [] |}
  else {| isValid := false; errors := ["Please enter a valid URL"] |}.

Definition validateFile (file : File) (options : FileOptions)
    : ValidationResult :=
  let maxSize := default (10 * 1024 * 1024)%Z (maxSize options) in
  let allowedTypes :=
    default ["image/jpeg"; "image/png"; "image/gif"; "image/webp"]
      (allowedTypes options) in
  let errors := [] in
  let errors :=
    push_if (size file >? maxSize)%Z
      ("File size must be less than " +:+ formatFileSize maxSize) errors in
  let errors :=
    push_if (negb (existsb (String.eqb (type file)) allowedTypes))
      ("File type " +:+ type file +:+ " is not supported") errors in
  {| isValid := no_errors errors; errors := errors |}.

End Platform.

End Validation.

(* ===================================================================== *)
(** * App.tsx                                                             *)
(* ===================================================================== *)

Module App.

(** [type Screen] *)
Inductive Screen := home | product_detail | add_product | profile | login.

(** The component [renderScreen] returns. *)
Inductive Component :=
| HomeFeed | ProductDetail | AddProduct | UserProfile | LoginSignup.

(** The four [useState] cells of [App]. *)
Record State := {
  currentScreen : Screen;
  isLoggedIn : bool;
  user : option Auth.User;
  showUserMenu : bool
}.

Definition setCurrentScreen (screen : Screen) (st : State) : State :=
  {| currentScreen := screen; isLoggedIn := isLoggedIn st; user := user st;
     showUserMenu := showUserMenu st |}.

(** [renderScreen()]: the component to show, or [null] after asking for
    the login screen. The [default] case of the [switch] is not reachable
    at type [Screen]. *)
Definition renderScreen (st : State) : State * option Component :=
  match currentScreen st with
  | home => (st, Some HomeFeed)
  | product_detail => (st, Some ProductDetail)
  | add_product =>
      if negb (isLoggedIn st)
      then (setCurrentScreen login st, None)
      else (st, Some AddProduct)
  | profile =>
      if negb (isLoggedIn st)
      then (setCurrentScreen login st, None)
      else (st, Some UserProfile)
  | login => (st, Some LoginSignup)
  end.

Section WithJSON.
Variable JSON_parse : string -> option Auth.User.

(** [checkAuth], the effect run when the application loads. *)
Definition checkAuth (s : Auth.State) (st : State) : Auth.State * State :=
  let authenticated := Auth.isAuthenticated s in
  let '(s', currentUser) := Auth.getUser JSON_parse s in
  (s', {| currentScreen := currentScreen st; isLoggedIn := authenticated;
          user := currentUser; showUserMenu := showUserMenu st |}).

(** [handleLogin(loggedIn)] *)
Definition handleLogin (loggedIn : bool) (s : Auth.State) (st : State)
    : Auth.State * State :=
  if loggedIn then
    let '(s', u) := Auth.getUser JSON_parse s in
    (s', {| currentScreen := currentScreen st; isLoggedIn := loggedIn;
            user := u; showUserMenu := showUserMenu st |})
  else
    (s, {| currentScreen := currentScreen st; isLoggedIn := loggedIn;
           user := user st; showUserMenu := showUserMenu st |}).

End WithJSON.

(** [handleLogout()] *)
Definition handleLogout (s : Auth.State) (st : State) : Auth.State * State :=
  (Auth.logout s,
   {| currentScreen := home; isLoggedIn := false; user := None;
      showUserMenu := showUserMenu st |}).

End App.

(* ===================================================================== *)
(** * components/HomeFeed.tsx                                             *)
(* ===================================================================== *)

Module HomeFeed.

(** [interface Product], as far as [fetchData] reads it. *)
Record ProductCategory := { name : string }.

Record Product := {
  id : Z;
  title : string;
  category : ProductCategory
}.

(** What a property of [categoryCounts] holds when it is read: a number,
    or something that is not a number: a member inherited from
    [Object.prototype] (a function, or the prototype itself under
    [__proto__]) or the text made by adding 1 to such a value. *)
Inductive CountValue : Type :=
| Number (n : Z)
| NotANumber.

(** [interface Category]; [count] is whatever [fetchData] stored. *)
Record Category := { cat_name : string; count : CountValue }.







End HomeFeed.

(* ===================================================================== *)
(** * components/AddProduct.tsx                                           *)
(* ===================================================================== *)

Module AddProduct.

(** The two [useState] cells the tag editor works on. *)
Record TagEditor := { tags : list string; currentTag : string }.

(** [tags.includes(tag)] *)
Definition includes (tag : string) (tags : list string) : bool :=
  existsb (String.eqb tag) tags.

(** [addTag()] *)
Definition addTag (st : TagEditor) : TagEditor :=
  if JS.truthy (Validation.trim (currentTag st)) &&
     negb (includes (Validation.trim (currentTag st)) (tags st))
  then {| tags := (tags st ++ [Validation.trim (currentTag st)])%list;
          currentTag := "" |}
  else st.

(** [removeTag(tagToRemove)] *)
Definition removeTag (tagToRemove : string) (st : TagEditor) : TagEditor :=
  {| tags := List.filter (fun tag => negb (String.eqb tag tagToRemove))
               (tags st);
     currentTag := currentTag st |}.

(** [array.filter((_, index) => index !== indexToRemove)], the indices
    counted from [index]. *)
Fixpoint filter_index (index : Z) (indexToRemove : Z) (images : list string)
    : list string :=
  match images with
  | [] => []
  | image :: rest =>
      if negb (index =? indexToRemove)%Z
      then image :: filter_index (index + 1) indexToRemove rest
      else filter_index (index + 1) indexToRemove rest
  end.

(** [removeImage(indexToRemove)] *)
Definition removeImage (indexToRemove : Z) (uploadedImages : list string)
    : list string :=
  filter_index 0 indexToRemove uploadedImages.

End AddProduct.

(* ===================================================================== *)
(** * components/LoginSignup.tsx                                          *)
(* ===================================================================== *)

Module LoginSignup.

(** [s.split(' ')] *)
Fixpoint split_space (s : string) : list string :=
  match s with
  | EmptyString => [EmptyString]
  | String a s' =>
      if Ascii.eqb a " " then EmptyString :: split_space s'
      else match split_space s' with
           | [] => [String a EmptyString]
           | piece :: pieces => String a piece :: pieces
           end
  end.

(** [pieces.join(' ')] *)
Fixpoint join_space (pieces : list string) : string :=
  match pieces with
  | [] => EmptyString
  | [piece] => piece
  | piece :: rest => piece ++ " " ++ join_space rest
  end.

(** [fullName.split(' ')[0] || ''] *)
Definition first_name_of (fullName : string) : string :=
  JS.or_else (List.head (split_space fullName)) "".

(** [fullName.split(' ').slice(1).join(' ') || ''] *)
Definition last_name_of (fullName : string) : string :=
  JS.or_else (Some (join_space (List.tl (split_space fullName)))) "".

(** What [handleSubmit] does with the form: the call of the service it
    makes, or the alert that the passwords differ. *)
Inductive Submission :=
| CallLogin (username password : string)
| CallRegister (requestData : Auth.UserData)
| AlertPasswordsDoNotMatch.

(** [handleSubmit], up to the call of the service. The five fields are
    those read from the form; in login mode the [email] field holds the
    user name. *)
Definition handleSubmit (isLogin : bool)
    (email password fullName username confirmPassword : string)
    : Submission :=
  if isLogin then
    let loginUsername := email in
    CallLogin loginUsername password
  else if negb (String.eqb password confirmPassword) then
    AlertPasswordsDoNotMatch
  else
    CallRegister
      {| Auth.ud_username := username;
         Auth.ud_email := email;
         Auth.ud_password := password;
         Auth.ud_password_confirm := password;
         Auth.ud_first_name := first_name_of fullName;
         Auth.ud_last_name := last_name_of fullName |}.

End LoginSignup.

(* ===================================================================== *)
(** * components/ProductDetail.tsx                                        *)
(* ===================================================================== *)

Module ProductDetail.

(** The product the screen shows: [upvote_count], which the handlers
    rewrite, and the other fields of the response, which they copy.  The
    handlers are bound to buttons the component renders only once a product
    is loaded. *)
Record Product := { upvote_count : Z; other_fields : string }.

(** The [useState] cells the two handlers work on. *)
Record State := {
  product : Product;
  comments : list string;
  isUpvoted : bool;
  newComment : string
}.

(** What a handler did besides changing the state: the screen it asked
    for, the alert it raised, and whether it called the API. *)
Record Outcome := {
  state : State;
  navigate : option App.Screen;
  alert : option string;
  requested : bool
}.

(** [handleUpvote()]. [posted] is how
    [await productService.upvoteProduct(productId)] settles when it is
    called.  A handler belongs to a render: [rendered] is the state that
    render showed, from which the handler reads [isUpvoted]; [prev] is the
    state when its updates are applied, which [setProduct(prev => ...)]
    reads. *)
Definition handleUpvote (s : Auth.State) (posted : Api.Settled string)
    (rendered prev : State) : Outcome :=
  if negb (Auth.isAuthenticated s) then
    {| state := prev; navigate := Some App.login; alert := None;
       requested := false |}
  else
    match posted with
    | Api.Fulfilled _ =>
        {| state :=
             {| product :=
                  {| upvote_count :=
                       if isUpvoted rendered
                       then JS.number_sub (upvote_count (product prev)) 1
                       else JS.number_add (upvote_count (product prev)) 1;
                     other_fields := other_fields (product prev) |};
                comments := comments prev;
                isUpvoted := negb (isUpvoted rendered);
                newComment := newComment prev |};
           navigate := None; alert := None; requested := true |}
    | Api.Rejected _ =>
        {| state := prev; navigate := None;
           alert := Some "Failed to upvote product"; requested := true |}
    end.

(** [handleComment()]. [posted] is how
    [await productService.commentProduct(productId, { content })] settles
    when it is called.  The handler reads [newComment] from the state its
    render showed; [setComments(prev => ...)] reads the comments when the
    update is applied. *)
Definition handleComment (s : Auth.State) (posted : Api.Settled string)
    (rendered prev : State) : Outcome :=
  if negb (Auth.isAuthenticated s) then
    {| state := prev; navigate := Some App.login; alert := None;
       requested := false |}
  else if negb (JS.truthy (Validation.trim (newComment rendered))) then
    {| state := prev; navigate := None; alert := None; requested := false |}
  else
    match posted with
    | Api.Fulfilled commentData =>
        {| state :=
             {| product := product prev;
                comments := (comments prev ++ [commentData])%list;
                isUpvoted := isUpvoted prev;
                newComment := "" |};
           navigate := None; alert := None; requested := true |}
    | Api.Rejected _ =>
        {| state := prev; navigate := None;
           alert := Some "Failed to post comment"; requested := true |}
    end.

End ProductDetail.

(* ===================================================================== *)
(** * Vocabulary of the statements                                        *)
(* ===================================================================== *)

Section ValidationVocabulary.
Import Validation.

(** The invariant of [ValidationResult]. *)
Definition consistent (r : ValidationResult) : Prop :=
  isValid r = true <-> errors r = [].

End ValidationVocabulary.

Section ProductVocabulary.
Import UseProducts.

(** Every field except [is_upvoted] and [upvote_count] agrees. *)
Definition same_other_fields (p q : Product) : Prop :=
  id q = id p /\ title q = title p /\
  short_description q = short_description p /\
  description q = description p /\ category q = category p /\
  author q = author p /\ image q = image p /\
  website_url q = website_url p /\ demo_url q = demo_url p /\
  view_count q = view_count p /\ comment_count q = comment_count p /\
  created_at q = created_at p /\ tags q = tags p /\
  comments q = comments p.

End ProductVocabulary.

Section AuthVocabulary.
Import JS Auth.

(** The token store and [localStorage] agree: whatever tokens the service
    holds in memory are the ones written under the two storage keys. *)
Definition coherent (s : State) : Prop :=
  forall t, svc_tokens s = Some t ->
    localStorage s !! "access_token" = Some (access t) /\
    localStorage s !! "refresh_token" = Some (refresh t).

End AuthVocabulary.

Section ApiVocabulary.
Import JS Api.

(** Every stored credential is gone, in memory and in [localStorage]. *)
Definition credentials_cleared (s : Auth.State) : Prop :=
  Auth.svc_tokens s = None /\
  Auth.svc_user s = None /\
  Auth.localStorage s !! "access_token" = None /\
  Auth.localStorage s !! "refresh_token" = None /\
  Auth.localStorage s !! "user" = None.

(** The ways [Auth.refreshAccessToken] fails: no refresh token is stored,
    [fetch] rejects, the response is not ok, or reading its body throws. *)
Definition refresh_fails
    (fetch : string -> Auth.Reply Auth.RefreshData) (s : Auth.State) : Prop :=
  Auth.getRefreshToken s = None \/
  exists r, Auth.getRefreshToken s = Some r /\
    ((exists e, fetch r = Auth.NetworkError e) \/
     (exists b, fetch r = Auth.NotOk b) \/
     (exists e, fetch r = Auth.Ok (inl e))).

(** The answer is a response with status 401. *)
Definition answer_is_401 (a : Answer) : bool :=
  match a with
  | Fails _ (Some r) => (status r =? 401)%Z
  | _ => false
  end.

Definition event_is_401 (e : option Event) : bool :=
  match e with
  | Some (Answered a) => answer_is_401 a
  | _ => false
  end.

(** Every [Refresh] event of [es] comes directly after a 401 answer;
    [prev] is the event before [es]. *)
Fixpoint refresh_only_after_401 (prev : option Event) (es : list Event)
    : bool :=
  match es with
  | [] => true
  | e :: es' =>
      match e with
      | Refresh _ => event_is_401 prev
      | _ => true
      end && refresh_only_after_401 (Some e) es'
  end.

Definition is_refresh (e : Event) : bool :=
  match e with Refresh _ => true | _ => false end.

Definition is_sent (e : Event) : bool :=
  match e with Sent _ => true | _ => false end.

Definition is_401 (e : Event) : bool := event_is_401 (Some e).

(** How many events of a kind a run shows. *)
Definition count (kind : Event -> bool) (es : list Event) : nat :=
  List.length (List.filter kind es).

(** The requests a run sent, in order. *)
Definition sent_requests (es : list Event) : list RequestConfig :=
  flat_map (fun e => match e with Sent c => [c] | _ => [] end) es.




End ApiVocabulary.

Section RegexVocabulary.
Import Regex.

(** The strings a regular expression denotes. *)
Inductive star (L : string -> Prop) : string -> Prop :=
| star_nil : star L ""
| star_app s1 s2 : L s1 -> star L s2 -> star L (s1 ++ s2).

Fixpoint lang (r : re) (s : string) : Prop :=
  match r with
  | Never => False
  | Empty => s = ""
  | Class p => exists a, s = String a "" /\ p a = true
  | Cat r1 r2 => exists s1 s2, s = s1 ++ s2 /\ lang r1 s1 /\ lang r2 s2
  | Alt r1 r2 => lang r1 s \/ lang r2 s
  | Star r1 => star (lang r1) s
  end.

(** Some code unit of [s] is in the class [p]. *)
Fixpoint some_char (p : ascii -> bool) (s : string) : bool :=
  match s with
  | EmptyString => false
  | String a s' => p a || some_char p s'
  end.

(** Every code unit of [s] is in the class [p]. *)
Fixpoint every_char (p : ascii -> bool) (s : string) : bool :=
  match s with
  | EmptyString => true
  | String a s' => p a && every_char p s'
  end.

(** [s] is one or more code units that are neither white space nor [@]. *)
Definition email_part (s : string) : Prop :=
  s <> "" /\ every_char not_space_at s = true.

End RegexVocabulary.

Section ValidatorVocabulary.
Import Validation.

(** The errors one entry of the form contributes: those of its rule when
    the rule rejects the value, none when it accepts it or when the field
    has no rule. *)
Definition entry_errors {V : Type}
    (rules : gmap string (V -> ValidationResult)) (entry : string * V)
    : list string :=
  match rules !! fst entry with
  | Some rule =>
      if isValid (rule (snd entry)) then [] else errors (rule (snd entry))
  | None => []
  end.

(** No field of the form reaches a member of [Object.prototype]: a field
    without a rule of its own is not named like one. *)
Definition plain_form {V : Type} (data : list (string * V))
    (rules : gmap string (V -> ValidationResult)) : Prop :=
  forall entry,
    In entry data -> rules !! fst entry = None ->
    JS.is_prototype_member (fst entry) = false.

(** [<] or [>] *)
Definition is_angle_bracket (a : ascii) : bool :=
  Ascii.eqb a "<" || Ascii.eqb a ">".

End ValidatorVocabulary.

Section SessionVocabulary.
Import JS Auth.

(** The states the service can be in: the one built from the
    [localStorage] found at start-up, and those its public methods lead to,
    whatever the network answers. *)
Inductive reachable (JSON_stringify : User -> string)
    (JSON_parse : string -> option User) : State -> Prop :=
| reach_getInstance ls :
    reachable JSON_stringify JSON_parse (getInstance ls)
| reach_login fetch username password s :
    reachable JSON_stringify JSON_parse s ->
    reachable JSON_stringify JSON_parse
      (fst (login JSON_stringify fetch username password s))
| reach_register fetch userData s :
    reachable JSON_stringify JSON_parse s ->
    reachable JSON_stringify JSON_parse
      (fst (register JSON_stringify fetch userData s))
| reach_googleLogin fetch credential s :
    reachable JSON_stringify JSON_parse s ->
    reachable JSON_stringify JSON_parse
      (fst (googleLogin JSON_stringify fetch credential s))
| reach_refreshAccessToken fetch s :
    reachable JSON_stringify JSON_parse s ->
    reachable JSON_stringify JSON_parse (fst (refreshAccessToken fetch s))
| reach_logout s :
    reachable JSON_stringify JSON_parse s ->
    reachable JSON_stringify JSON_parse (logout s)
| reach_setUser u s :
    reachable JSON_stringify JSON_parse s ->
    reachable JSON_stringify JSON_parse (setUser JSON_stringify u s)
| reach_getUser s :
    reachable JSON_stringify JSON_parse s ->
    reachable JSON_stringify JSON_parse (fst (getUser JSON_parse s)).

(** Reloading the page: a new service instance is built from the
    [localStorage] the old one leaves behind. *)
Definition reload (s : State) : State := getInstance (localStorage s).

End SessionVocabulary.

Section SessionScenarios.
Import JS Auth.

Definition test_user : User :=
  {| id := 1; username := "testuser"; email := "test@example.com";
     first_name := "Test"; last_name := "User" |}.

(** The answer of the login endpoint in the repository's tests. *)
Definition login_successful : AuthResponse :=
  {| message := "Login successful"; user := test_user;
     tokens := {| access := "access_token"; refresh := "refresh_token" |} |}.

(** A codec for the scenarios: a user is written as its user name, and
    the only text that reads back is that of [test_user]. *)
Definition write_user (u : User) : string := username u.

Definition read_user (str : string) : option User :=
  if String.eqb str "testuser" then Some test_user else None.

End SessionScenarios.

Section ClientVocabulary.
Import JS Api.

(** The browser is on the same page, with the same refresh token and the
    same user in memory. *)
Definition session_kept (w w' : Browser) : Prop :=
  location_href w' = location_href w /\
  Auth.getRefreshToken (auth w') = Auth.getRefreshToken (auth w) /\
  Auth.svc_user (auth w') = Auth.svc_user (auth w).

(** From time [t0] on the API answers no 401, or from time [t0] on the
    refresh endpoint grants no token. *)
Definition calms_down (net : Network) (t0 : nat) : Prop :=
  (forall t c, (t0 <= t)%nat -> answer_is_401 (server net t c) = false) \/
  (forall t r d, (t0 <= t)%nat ->
                 refresh_endpoint net t r <> Auth.Ok (inr d)).

(** [c] is the request [config] but for its [Authorization] header. *)
Definition same_request (config c : RequestConfig) : Prop :=
  method c = method config /\
  url c = url config /\
  params c = params config /\
  data c = data config /\
  forall k, k <> "Authorization" -> headers c !! k = headers config !! k.

End ClientVocabulary.

Section HookVocabulary.
Import UseProducts.

(** Every field except [comments] and [comment_count] agrees. *)
Definition same_but_comments (p q : Product) : Prop :=
  id q = id p /\ title q = title p /\
  short_description q = short_description p /\
  description q = description p /\ category q = category p /\
  author q = author p /\ image q = image p /\
  website_url q = website_url p /\ demo_url q = demo_url p /\
  upvote_count q = upvote_count p /\ view_count q = view_count p /\
  is_upvoted q = is_upvoted p /\
  created_at q = created_at p /\ tags q = tags p.

(** The hook shows what the service knows: the same answer to "is someone
    signed in" and the same user. *)
Definition in_sync (JSON_parse : string -> option Auth.User)
    (w : Api.Browser) (h : UseAuth.HookState) : Prop :=
  UseAuth.isAuthenticated h = Auth.isAuthenticated (Api.auth w) /\
  UseAuth.user h = snd (Auth.getUser JSON_parse (Api.auth w)).

End HookVocabulary.

Section ScreenVocabulary.


(** A tag that is neither empty nor white space only. *)
Definition not_blank (tag : string) : Prop :=
  every_char Regex.is_space tag = false.

(** The tags are pairwise different and none is blank. *)
Definition tags_ok (tags : list string) : Prop :=
  List.NoDup tags /\ List.Forall not_blank tags.

(** The code unit is a space. *)
Definition is_blank (a : ascii) : bool := Ascii.eqb a " ".

End ScreenVocabulary.

(* ===================================================================== *)
(** * Scenarios                                                           *)
(* ===================================================================== *)

(** Concrete browsers, networks and product lists on which the statements
    below are exercised. *)
Section Scenarios.
Import JS Api.

(** A signed-in user. *)
Definition signed_in : Auth.State :=
  Auth.storeTokens
    {| Auth.access := "stale-access"; Auth.refresh := "refresh-1" |}
    (Auth.getInstance ∅).

(** The browser of a signed-in user on the home page. *)
Definition home_page : Browser :=
  {| auth := signed_in; location_href := "/"; clock := 0 |}.

(** The browser of a visitor who never signed in. *)
Definition visitor_page : Browser :=
  {| auth := Auth.getInstance ∅; location_href := "/"; clock := 0 |}.

(** [productService.getProducts()] *)
Definition list_products : RequestConfig :=
  new_request "get" "/products/products/" None None.

Definition unauthorized : Answer :=
  Fails "Request failed with status code 401"
    (Some {| status := 401; body := "detail: Given token not valid" |}).

Definition server_error : Answer :=
  Fails "Request failed with status code 500"
    (Some {| status := 500; body := "detail: Database unavailable" |}).

Definition grants_token (r : string) : Auth.Reply Auth.RefreshData :=
  Auth.Ok (inr {| Auth.new_access := "fresh-access" |}).

Definition refuses_token (r : string) : Auth.Reply Auth.RefreshData :=
  Auth.NotOk
    (inr {| Auth.detail := Some "Token is invalid or expired";
            Auth.error := None |}).

(** An API that still answers 401 to the first request made with a fresh
    token, and serves the list after a second refresh. *)
Definition slow_to_accept : Network :=
  {| server := fun t _ =>
       if (t <? 4)%nat then unauthorized
       else Resolves {| status := 200; body := "[]" |};
     refresh_endpoint := fun _ => grants_token |}.

(** An API that answers 401 to every request while its refresh endpoint
    keeps granting tokens. *)
Definition never_accepts : Network :=
  {| server := fun _ _ => unauthorized;
     refresh_endpoint := fun _ => grants_token |}.

(** An API that answers 401 and refuses the refresh token. *)
Definition session_expired : Network :=
  {| server := fun _ _ => unauthorized;
     refresh_endpoint := fun _ => refuses_token |}.

(** An API that fails with status 500. *)
Definition broken_server : Network :=
  {| server := fun _ _ => server_error;
     refresh_endpoint := fun _ => refuses_token |}.

(** An API whose refresh endpoint answers with an empty access token. *)
Definition grants_empty_token : Network :=
  {| server := fun t _ =>
       if (t <? 2)%nat then unauthorized
       else Resolves {| status := 200; body := "[]" |};
     refresh_endpoint := fun _ _ =>
       Auth.Ok (inr {| Auth.new_access := "" |}) |}.

(** The [useAuth] hook of a signed-in user. *)
Definition signed_in_hook : UseAuth.HookState :=
  {| UseAuth.user := None; UseAuth.isAuthenticated := true;
     UseAuth.isLoading := false |}.

Definition sample_product (i : Z) (count : Z) (upvoted : bool)
    : UseProducts.Product :=
  {| UseProducts.id := i;
     UseProducts.title := "Vitrin";
     UseProducts.short_description := "A showcase";
     UseProducts.description := None;
     UseProducts.category := UseProducts.CategoryName "Tools";
     UseProducts.author :=
       {| UseProducts.username := "ada"; UseProducts.first_name := None;
          UseProducts.last_name := None |};
     UseProducts.image := None;
     UseProducts.website_url := None;
     UseProducts.demo_url := None;
     UseProducts.upvote_count := count;
     UseProducts.view_count := 10;
     UseProducts.comment_count := 0;
     UseProducts.is_upvoted := upvoted;
     UseProducts.created_at := "2024-01-01";
     UseProducts.tags := None;
     UseProducts.comments := None |}.

Definition sample_products : list UseProducts.Product :=
  [sample_product 1 5 false; sample_product 2 7 true;
   sample_product 3 0 false].

(** The members of [Object.prototype] called as rules on a form whose
    values are text.  [valueOf] returns the table of rules itself, whose
    [isValid] is truthy when the table has a rule of that name, so that
    nothing is pushed.  [toLocaleString] calls [rules.toString()]: when the
    table has a rule of that name it is that rule, called without an
    argument, whose result is then read as the result of any rule;
    [without_argument] says what a rule does then.  In every other case the
    turn throws a [TypeError]: the result has no [errors] to spread
    ([constructor], [toString], [toLocaleString], [hasOwnProperty],
    [isPrototypeOf], [propertyIsEnumerable], [__lookupGetter__],
    [__lookupSetter__], and [valueOf] otherwise), or the member throws
    itself ([__defineGetter__], [__defineSetter__]) or is no function
    ([__proto__]).  The message is the engine's and is not modelled. *)
Definition members_on_text
    (without_argument :
       (string -> Validation.ValidationResult) ->
       JS.Outcome Validation.ValidationResult)
    (member : string)
    (rules : gmap string (string -> Validation.ValidationResult))
    (value : string) : JS.Outcome (list string) :=
  if String.eqb member "valueOf" && bool_decide (is_Some (rules !! "isValid"))
  then JS.Return []
  else
    match (if String.eqb member "toLocaleString" then rules !! "toString"
           else None) with
    | Some rule =>
        match without_argument rule with
        | JS.Return result =>
            JS.Return (if Validation.isValid result then []
                       else Validation.errors result)
        | JS.Throw e => JS.Throw e
        end
    | None => JS.Throw (JS.TypeError "(the engine's message)")
    end.

(** The tables of rules of the examples have no rule named [toString]:
    what such a rule does without an argument is never asked for, and any
    answer serves. *)
Definition never_asked
    (rule : string -> Validation.ValidationResult)
    : JS.Outcome Validation.ValidationResult :=
  JS.Throw (JS.TypeError "(the engine's message)").

End Scenarios.

Section ClientScenarios.
Import JS Api.

(** An API that answers 401 to the first request and serves the second;
    the refresh endpoint grants a token. *)
Definition expired_once : Network :=
  {| server := fun t _ =>
       if (t <? 2)%nat then unauthorized
       else Resolves {| status := 200; body := "[]" |};
     refresh_endpoint := fun _ => grants_token |}.

End ClientScenarios.

(* ===================================================================== *)
(** * Properties of the validation functions                              *)
(* ===================================================================== *)

Section ValidationFacts.
Import Validation.

Lemma no_errors_spec (errors : list string) :
  no_errors errors = true <-> errors = [].
Proof.
  unfold no_errors. destruct errors as [|e errors]; simpl.
  - split; reflexivity.
  - split; discriminate.
Qed.

Lemma consistent_collected (errors : list string) :
  consistent {| isValid := no_errors errors; errors := errors |}.
Proof. unfold consistent; simpl. apply no_errors_spec. Qed.

Lemma validateEmail_consistent email : consistent (validateEmail email).
Proof.
  unfold validateEmail, consistent; simpl.
  destruct (Regex.test_anchored emailRegex email); split;
    (reflexivity || discriminate).
Qed.

Lemma validateUrl_consistent URL_parses url :
  consistent (validateUrl URL_parses url).
Proof.
  unfold validateUrl, consistent.
  destruct (URL_parses url); simpl; split; (reflexivity || discriminate).
Qed.

Lemma validateForm_consistent {V : Type} inherited_rule
    (data : list (string * V)) rules result :
  validateForm inherited_rule data rules = JS.Return result ->
  consistent result.
Proof.
  unfold validateForm.
  destruct (collect inherited_rule rules data []) as [collected|e];
    [|discriminate].
  intros [= <-]. apply consistent_collected.
Qed.

Lemma rule_at_plain {V : Type} (data : list (string * V)) rules entry :
  plain_form data rules -> In entry data ->
  rule_at rules (fst entry) =
  match rules !! fst entry with
  | Some rule => OwnRule rule
  | None => NoRule
  end.
Proof.
  intros Hplain Hin. unfold rule_at.
  destruct (rules !! fst entry) eqn:Hrule; [reflexivity|].
  rewrite (Hplain entry Hin Hrule). reflexivity.
Qed.

Lemma plain_form_tail {V : Type} (entry : string * V) data rules :
  plain_form (entry :: data) rules -> plain_form data rules.
Proof. intros Hplain e He. apply Hplain. right. exact He. Qed.

(** On a plain form the loop ends, with the errors of the rejecting rules
    appended in the order of the entries. *)
Lemma collect_plain {V : Type} inherited_rule
    (rules : gmap string (V -> ValidationResult))
    (data : list (string * V)) (acc : list string) :
  plain_form data rules ->
  collect inherited_rule rules data acc
  = JS.Return (acc ++ flat_map (entry_errors rules) data)%list.
Proof.
  revert acc. induction data as [|[field value] data IH];
    intros acc Hplain; simpl.
  - rewrite List.app_nil_r. reflexivity.
  - pose proof (rule_at_plain _ rules (field, value) Hplain
                  (or_introl eq_refl)) as Hrule.
    simpl in Hrule. rewrite Hrule. clear Hrule.
    unfold entry_errors at 1. simpl.
    destruct (rules !! field) as [rule|]; simpl.
    + rewrite IH by exact (plain_form_tail _ _ _ Hplain).
      unfold result_errors. destruct (isValid (rule value)); simpl.
      * reflexivity.
      * rewrite <- List.app_assoc. reflexivity.
    + apply IH. exact (plain_form_tail _ _ _ Hplain).
Qed.

Lemma validateForm_plain {V : Type} inherited_rule
    (data : list (string * V)) (rules : gmap string (V -> ValidationResult)) :
  plain_form data rules ->
  validateForm inherited_rule data rules
  = JS.Return
      {| isValid := no_errors (flat_map (entry_errors rules) data);
         errors := flat_map (entry_errors rules) data |}.
Proof.
  intros Hplain. unfold validateForm.
  rewrite (collect_plain _ _ _ [] Hplain). reflexivity.
Qed.

Example validateEmail_accepts :
  isValid (validateEmail "ada@vitrin.org") = true.
Proof. vm_compute. reflexivity. Qed.

Example validateEmail_rejects :
  validateEmail "ada@vitrin" =
  {| isValid := false; errors := ["Please enter a valid email address"] |}.
Proof. vm_compute. reflexivity. Qed.

Example validatePassword_errors :
  errors (validatePassword "secret") =
  ["Password must be at least 8 characters long";
   "Password must contain at least one uppercase letter";
   "Password must contain at least one number"].
Proof. vm_compute. reflexivity. Qed.

Example validateProductTitle_blank :
  errors (validateProductTitle "    ") = ["Product title is required"].
Proof. vm_compute. reflexivity. Qed.

(** A rule that breaks the invariant itself does not break it for
    [validateForm]: its errors are collected only when it says invalid. *)
Example validateForm_with_inconsistent_rule :
  validateForm (members_on_text never_asked) [("name", "x")]
    {[ "name" := fun _ : string => {| isValid := false; errors := [] |} ]}
  = JS.Return {| isValid := true; errors := [] |}.
Proof. vm_compute. reflexivity. Qed.

(** A field named like a member of [Object.prototype] and without a rule
    is checked by that member: [validateForm({constructor: 'x'}, {})]
    throws, and nothing is returned. *)
Example validateForm_constructor_field :
  validateForm (members_on_text never_asked) [("constructor", "x")] ∅
  = JS.Throw (JS.TypeError "(the engine's message)").
Proof. vm_compute. reflexivity. Qed.

(** C8. Every validation function ([validateEmail], [validatePassword],
    [validateUsername], [validateProductTitle],
    [validateProductDescription], [validateUrl], [validateFile],
    [validateForm], [validateSearchQuery]) returns only results whose
    [isValid] is true if and only if their [errors] list is empty.  The
    first seven and the last return on every input, for any URL parser and
    any rendering of file sizes.  [validateForm] returns on every form no
    field of which reaches a member of [Object.prototype], whatever the
    rules; on the other forms it returns or throws as the member decides,
    and what it returns satisfies the invariant too. *)
Theorem validation_result_invariant
    (URL_parses : string -> bool) (formatFileSize : Z -> string) :
  (forall email, consistent (validateEmail email)) /\
  (forall password, consistent (validatePassword password)) /\
  (forall username, consistent (validateUsername username)) /\
  (forall title, consistent (validateProductTitle title)) /\
  (forall description,
      consistent (validateProductDescription description)) /\
  (forall url, consistent (validateUrl URL_parses url)) /\
  (forall file options,
      consistent (validateFile formatFileSize file options)) /\
  (forall (V : Type) inherited_rule (data : list (string * V)) rules result,
      validateForm inherited_rule data rules = JS.Return result ->
      consistent result) /\
  (forall (V : Type) inherited_rule (data : list (string * V)) rules,
      plain_form data rules ->
      exists result,
        validateForm inherited_rule data rules = JS.Return result /\
        consistent result) /\
  (forall query, consistent (validateSearchQuery query)).
Proof.
  repeat apply conj; intros;
    first [ apply validateEmail_consistent
          | apply validateUrl_consistent
          | eapply validateForm_consistent; eassumption
          | eexists; split;
            [apply validateForm_plain; assumption|apply consistent_collected]
          | apply consistent_collected ].
Qed.

Lemma validation_result_invariant_witness :
  consistent
    {| isValid := false; errors := ["Please enter a valid email address"] |}
  /\
  exists result,
    validateForm (members_on_text never_asked)
      [("email", "ada@vitrin.org"); ("constructor", "x")]
      {[ "email" := validateEmail;
         "constructor" :=
           fun _ : string => {| isValid := true; errors := [] |} ]}
    = JS.Return result /\
    consistent result.
Proof.
  destruct (validation_result_invariant (fun _ => true) (fun _ => "10MB"))
    as (_ & _ & _ & _ & _ & _ & _ & Hreturned & Hplain & _).
  split.
  - apply (Hreturned string (members_on_text never_asked)
             [("email", "ada@vitrin")]
             {[ "email" := validateEmail ]}).
    vm_compute. reflexivity.
  - apply (Hplain string (members_on_text never_asked)).
    intros entry [<-|[<-|[]]]; vm_compute; intros H; discriminate.
Defined.

End ValidationFacts.

(* ===================================================================== *)
(** * Properties of the product list                                      *)
(* ===================================================================== *)

Section NumberFacts.
Import JS.

Lemma round_to_double_exact z :
  Z.abs z <= 2 ^ 53 -> round_to_double z = z.
Proof.
  intros H. unfold round_to_double.
  destruct (Z.leb_spec (Z.abs z) (2 ^ 53)); [reflexivity|lia].
Qed.

Lemma number_add_safe z : safe_integer z -> number_add z 1 = z + 1.
Proof.
  unfold safe_integer, number_add. intros H.
  apply round_to_double_exact. lia.
Qed.

Lemma number_sub_safe z : safe_integer z -> number_sub z 1 = z - 1.
Proof.
  unfold safe_integer, number_sub. intros H.
  apply round_to_double_exact. lia.
Qed.

(** Counting up from 0 stays exact below 2^53. *)
Lemma number_add_count z : 0 <= z < 2 ^ 53 -> number_add z 1 = z + 1.
Proof. intros H. apply number_add_safe. unfold safe_integer. lia. Qed.

(** At 2^53 adding 1 gives 2^53 again; subtracting is still exact. *)
Example number_add_at_2_53 :
  number_add (2 ^ 53) 1 = 2 ^ 53 /\ number_sub (2 ^ 53) 1 = 2 ^ 53 - 1.
Proof. split; reflexivity. Qed.

(** Beyond 2^53 a tie goes to the even neighbour. *)
Example round_to_double_ties :
  round_to_double (2 ^ 53 + 1) = 2 ^ 53 /\
  round_to_double (2 ^ 53 + 2) = 2 ^ 53 + 2 /\
  round_to_double (2 ^ 53 + 3) = 2 ^ 53 + 4 /\
  round_to_double (- (2 ^ 53) - 1) = - (2 ^ 53) /\
  round_to_double (2 ^ 54 + 2) = 2 ^ 54 /\
  round_to_double (2 ^ 54 + 3) = 2 ^ 54 + 4.
Proof. repeat split; reflexivity. Qed.

End NumberFacts.

Section ProductFacts.
Import UseProducts.

Lemma toggled_other_fields p : same_other_fields p (toggled p).
Proof. unfold same_other_fields, toggled; simpl. tauto. Qed.

Lemma toggled_count p :
  upvote_count (toggled p) =
  if is_upvoted p then JS.number_sub (upvote_count p) 1
  else JS.number_add (upvote_count p) 1.
Proof. reflexivity. Qed.

Lemma toggled_count_safe p :
  JS.safe_integer (upvote_count p) ->
  upvote_count (toggled p) =
  if is_upvoted p then upvote_count p - 1 else upvote_count p + 1.
Proof.
  intros Hsafe. rewrite toggled_count.
  destruct (is_upvoted p);
    [apply number_sub_safe|apply number_add_safe]; exact Hsafe.
Qed.

Lemma upvote_updater_length productId prev :
  List.length (upvote_updater productId prev) = List.length prev.
Proof. unfold upvote_updater. apply List.length_map. Qed.

Lemma upvote_updater_lookup productId prev (i : nat) :
  upvote_updater productId prev !! i =
  (fun p => if (id p =? productId)%Z then toggled p else p) <$> prev !! i.
Proof.
  revert i. induction prev as [|p prev IH]; intros [|i]; simpl;
    solve [reflexivity | apply IH].
Qed.

Lemma upvote_updater_absent productId prev :
  (forall p, In p prev -> id p <> productId) ->
  upvote_updater productId prev = prev.
Proof.
  induction prev as [|p prev IH]; simpl; intros Habs; [reflexivity|].
  destruct (Z.eqb_spec (id p) productId) as [Heq|Hne].
  - exfalso. apply (Habs p); auto.
  - f_equal. apply IH. intros q Hq. apply Habs. auto.
Qed.

(** Toggling twice restores a product whose count is a safe integer. *)
Lemma toggled_involutive p :
  JS.safe_integer (upvote_count p) -> toggled (toggled p) = p.
Proof.
  destruct p as [? ? ? ? ? ? ? ? ? n ? ? up ? ? ?].
  unfold JS.safe_integer; simpl. intros Hsafe.
  unfold toggled; simpl. destruct up; simpl; f_equal.
  - rewrite (number_sub_safe n) by exact Hsafe.
    unfold JS.number_add. rewrite round_to_double_exact; lia.
  - rewrite (number_add_safe n) by exact Hsafe.
    unfold JS.number_sub. rewrite round_to_double_exact; lia.
Qed.

(** C10. A successful [upvoteProduct(productId)] keeps the length of the
    product list, leaves every product with another id as it is, and in a
    product with that id flips [is_upvoted], keeps every field other than
    [upvote_count], and sets [upvote_count] to the sum (not upvoted) or the
    difference (upvoted) of the count and 1 as JavaScript numbers: that is
    the count moved by exactly +1 or -1 when the count is a safe integer
    (magnitude below 2^53).  When no product has the id the list is
    unchanged. *)
Theorem upvoteProduct_frame
    (body : string) (productId : Z) (products : list Product) :
  exists products',
    upvoteProduct (Api.Fulfilled body) productId products
      = (products', Api.Fulfilled tt) /\
    List.length products' = List.length products /\
    (forall (i : nat) p,
        products !! i = Some p -> id p <> productId ->
        products' !! i = Some p) /\
    (forall (i : nat) p,
        products !! i = Some p -> id p = productId ->
        exists q,
          products' !! i = Some q /\
          is_upvoted q = negb (is_upvoted p) /\
          same_other_fields p q /\
          upvote_count q =
            (if is_upvoted p then JS.number_sub (upvote_count p) 1
             else JS.number_add (upvote_count p) 1) /\
          (JS.safe_integer (upvote_count p) ->
           upvote_count q =
             (if is_upvoted p then upvote_count p - 1
              else upvote_count p + 1))) /\
    ((forall p, In p products -> id p <> productId) ->
     products' = products).
Proof.
  exists (upvote_updater productId products). split; [reflexivity|].
  split; [apply upvote_updater_length|].
  split; [|split].
  - intros i p Hi Hne. rewrite upvote_updater_lookup, Hi; simpl.
    destruct (Z.eqb_spec (id p) productId); [contradiction|reflexivity].
  - intros i p Hi Heq. exists (toggled p).
    rewrite upvote_updater_lookup, Hi; simpl.
    destruct (Z.eqb_spec (id p) productId); [|contradiction].
    split; [reflexivity|]. split; [reflexivity|].
    split; [apply toggled_other_fields|].
    split; [apply toggled_count|apply toggled_count_safe].
  - apply upvote_updater_absent.
Qed.

Lemma upvoteProduct_frame_witness :
  exists products',
    upvoteProduct (Api.Fulfilled "ok") 2 sample_products
      = (products', Api.Fulfilled tt) /\
    products' !! 0%nat = Some (sample_product 1 5 false) /\
    (exists q,
        products' !! 1%nat = Some q /\
        is_upvoted q = false /\
        upvote_count q = 6 /\
        same_other_fields (sample_product 2 7 true) q) /\
    (upvoteProduct (Api.Fulfilled "ok") 9 sample_products
      = (sample_products, Api.Fulfilled tt)).
Proof.
  destruct (upvoteProduct_frame "ok" 2 sample_products)
    as (products' & Hrun & _ & Hother & Htarget & _).
  exists products'. split; [exact Hrun|]. split; [|split].
  - apply (Hother 0%nat (sample_product 1 5 false)); [reflexivity|].
    simpl. lia.
  - destruct (Htarget 1%nat (sample_product 2 7 true) eq_refl eq_refl)
      as (q & Hq & Hup & Hsame & _ & Hcount).
    exists q. split; [exact Hq|]. split; [exact Hup|].
    split; [|exact Hsame].
    apply Hcount. unfold JS.safe_integer; simpl. split; reflexivity.
  - destruct (upvoteProduct_frame "ok" 9 sample_products)
      as (unchanged & Hrun9 & _ & _ & _ & Habsent).
    rewrite Hrun9. f_equal. apply Habsent.
    intros p [<-|[<-|[<-|[]]]]; simpl; lia.
Defined.

(** C10, where it fails: a product counted 2^53 times and not yet upvoted
    is upvoted; the flag flips but the count stays 2^53, the sum 2^53 + 1
    not being a double-precision number. *)
Lemma upvote_at_2_53_keeps_count :
  exists q,
    upvoteProduct (Api.Fulfilled "ok") 1 [sample_product 1 (2 ^ 53) false]
      = ([q], Api.Fulfilled tt) /\
    is_upvoted q = true /\
    upvote_count q = 2 ^ 53 /\
    upvote_count q <> upvote_count (sample_product 1 (2 ^ 53) false) + 1.
Proof.
  eexists. split; [reflexivity|]. split; [reflexivity|].
  split; [reflexivity|]. simpl. vm_compute. discriminate.
Qed.

(** A rejected call leaves the list as it is and is thrown again. *)
Lemma upvoteProduct_rejected err productId products :
  upvoteProduct (Api.Rejected err) productId products
    = (products, Api.Rejected err).
Proof. reflexivity. Qed.

End ProductFacts.

(* ===================================================================== *)
(** * Properties of the token store                                       *)
(* ===================================================================== *)

Section AuthFacts.
Import JS Auth.

(** The cases of the repository's tests of [AuthService]. *)
Example login_stores_tokens_and_user :
  let data :=
    {| message := "Login successful";
       user := {| id := 1; username := "testuser";
                  email := "test@example.com";
                  first_name := "Test"; last_name := "User" |};
       tokens := {| access := "access_token"; refresh := "refresh_token" |} |}
  in
  let s := fst (login username (fun _ _ => Ok (inr data))
                  "testuser" "password" (getInstance ∅)) in
  localStorage s !! "access_token" = Some "access_token" /\
  localStorage s !! "refresh_token" = Some "refresh_token" /\
  localStorage s !! "user" = Some "testuser" /\
  getAccessToken s = Some "access_token" /\
  isAuthenticated s = true.
Proof. vm_compute. auto. Qed.

Example login_failure_throws_detail :
  snd (login username
         (fun _ _ => NotOk (inr {| detail := Some "Invalid credentials";
                                   error := None |}))
         "testuser" "wrongpassword" (getInstance ∅))
  = Throw (Error "Invalid credentials").
Proof. reflexivity. Qed.

Example refresh_stores_new_access_token :
  let '(s, refreshed) :=
    refreshAccessToken (fun _ => Ok (inr {| new_access := "new_access_token" |}))
      (getInstance {[ "access_token" := "access_token";
                      "refresh_token" := "refresh_token" ]}) in
  refreshed = true /\
  localStorage s !! "access_token" = Some "new_access_token" /\
  getRefreshToken s = Some "refresh_token".
Proof. vm_compute. auto. Qed.

Example getUser_invalid_json :
  snd (getUser (fun _ => None)
         {| svc_tokens := None; svc_user := None;
            localStorage := {[ "user" := "invalid json" ]} |}) = None.
Proof. vm_compute. reflexivity. Qed.

Lemma coherent_getInstance ls : coherent (getInstance ls).
Proof.
  unfold getInstance, loadTokensFromStorage, getItem, coherent; simpl.
  destruct (ls !! "access_token") as [a|] eqn:Ha;
    destruct (ls !! "refresh_token") as [r|] eqn:Hr; simpl;
    try discriminate.
  destruct (truthy a && truthy r); simpl; [|discriminate].
  intros t [= <-]; simpl. auto.
Qed.

Lemma coherent_storeTokens t s : coherent (storeTokens t s).
Proof.
  unfold storeTokens, coherent; simpl. intros t' [= <-].
  split.
  - rewrite lookup_insert_ne by discriminate. apply lookup_insert_eq.
  - apply lookup_insert_eq.
Qed.

Lemma coherent_logout s : coherent (logout s).
Proof. unfold logout, coherent; simpl. discriminate. Qed.

Lemma coherent_setUser stringify u s :
  coherent s -> coherent (setUser stringify u s).
Proof.
  unfold setUser, coherent; simpl. intros H t Ht.
  rewrite !lookup_insert_ne by discriminate. auto.
Qed.

Lemma coherent_getUser parse s :
  coherent s -> coherent (fst (getUser parse s)).
Proof.
  unfold getUser, getItem. intros H.
  destruct (svc_user s); simpl; [assumption|].
  destruct (localStorage s !! "user") as [userStr|]; simpl; [|assumption].
  destruct (truthy userStr); simpl; assumption.
Qed.

Lemma coherent_refreshAccessToken fetch s :
  coherent s -> coherent (fst (refreshAccessToken fetch s)).
Proof.
  unfold refreshAccessToken. intros H.
  destruct (getRefreshToken s) as [r|]; simpl; [|assumption].
  destruct (fetch r) as [e|b|[e|d]]; simpl; try assumption.
  apply coherent_storeTokens.
Qed.

Lemma getRefreshToken_Some s r :
  getRefreshToken s = Some r ->
  exists t, svc_tokens s = Some t /\ refresh t = r.
Proof.
  unfold getRefreshToken, or_null.
  destruct (svc_tokens s) as [t|]; simpl; [|discriminate].
  destruct (truthy (refresh t)); [|discriminate].
  intros [= <-]. eauto.
Qed.

(** What a successful refresh does, step by step. *)
Lemma refreshAccessToken_true fetch s s' :
  refreshAccessToken fetch s = (s', true) ->
  exists r d,
    getRefreshToken s = Some r /\
    fetch r = Ok (inr d) /\
    s' = storeTokens {| access := new_access d; refresh := r |} s.
Proof.
  unfold refreshAccessToken.
  destruct (getRefreshToken s) as [r|]; [|discriminate].
  destruct (fetch r) as [e|b|[e|d]] eqn:Hf; try discriminate.
  intros [= <-]. eauto.
Qed.

(** What a failed refresh does: nothing. *)
Lemma refreshAccessToken_false fetch s s' :
  refreshAccessToken fetch s = (s', false) -> s' = s.
Proof.
  unfold refreshAccessToken.
  destruct (getRefreshToken s) as [r|]; [|congruence].
  destruct (fetch r) as [e|b|[e|d]]; congruence.
Qed.

(** C3. A successful token refresh stores the newly issued access token
    and nothing else changes: the refresh token held in memory and the one
    in [localStorage] are the ones stored before, the user is untouched,
    and so is every [localStorage] key other than [access_token]. *)
Theorem refresh_replaces_only_access_token
    (fetch : string -> Reply RefreshData) (s s' : State) :
  coherent s ->
  refreshAccessToken fetch s = (s', true) ->
  exists r d,
    fetch r = Ok (inr d) /\
    getRefreshToken s = Some r /\
    getRefreshToken s' = Some r /\
    refresh <$> svc_tokens s' = refresh <$> svc_tokens s /\
    access <$> svc_tokens s' = Some (new_access d) /\
    localStorage s' !! "access_token" = Some (new_access d) /\
    localStorage s' !! "refresh_token" = localStorage s !! "refresh_token" /\
    (forall k, k <> "access_token" ->
               localStorage s' !! k = localStorage s !! k) /\
    svc_user s' = svc_user s.
Proof.
  intros Hco Hrun.
  destruct (refreshAccessToken_true _ _ _ Hrun) as (r & d & Hr & Hf & ->).
  destruct (getRefreshToken_Some _ _ Hr) as (t & Ht & Hrt).
  destruct (Hco t Ht) as [_ Hls]. rewrite Hrt in Hls.
  assert (Hkeep : forall k, k <> "access_token" ->
            localStorage
              (storeTokens {| access := new_access d; refresh := r |} s) !! k
            = localStorage s !! k).
  { intros k Hk. unfold storeTokens; simpl.
    destruct (decide (k = "refresh_token")) as [->|Hk'].
    - rewrite lookup_insert_eq. symmetry. exact Hls.
    - rewrite !lookup_insert_ne by congruence. reflexivity. }
  exists r, d. repeat apply conj; try assumption.
  - unfold getRefreshToken in *. simpl.
    rewrite Ht in Hr. simpl in Hr. rewrite Hrt in Hr. exact Hr.
  - simpl. rewrite Ht. simpl. congruence.
  - reflexivity.
  - unfold storeTokens; simpl.
    rewrite lookup_insert_ne by discriminate. apply lookup_insert_eq.
  - apply Hkeep. discriminate.
  - reflexivity.
Qed.

Lemma refresh_replaces_only_access_token_witness :
  exists r d,
    grants_token r = Ok (inr d) /\
    getRefreshToken signed_in = Some r /\
    getRefreshToken (fst (refreshAccessToken grants_token signed_in))
      = Some r /\
    refresh <$> svc_tokens (fst (refreshAccessToken grants_token signed_in))
      = refresh <$> svc_tokens signed_in /\
    access <$> svc_tokens (fst (refreshAccessToken grants_token signed_in))
      = Some (new_access d) /\
    localStorage (fst (refreshAccessToken grants_token signed_in))
      !! "access_token" = Some (new_access d) /\
    localStorage (fst (refreshAccessToken grants_token signed_in))
      !! "refresh_token" = localStorage signed_in !! "refresh_token" /\
    (forall k, k <> "access_token" ->
       localStorage (fst (refreshAccessToken grants_token signed_in)) !! k
       = localStorage signed_in !! k) /\
    svc_user (fst (refreshAccessToken grants_token signed_in))
      = svc_user signed_in.
Proof.
  apply (refresh_replaces_only_access_token grants_token signed_in
           (fst (refreshAccessToken grants_token signed_in))).
  - intros t [= <-]. split; vm_compute; reflexivity.
  - reflexivity.
Defined.

Lemma logout_clears s :
  svc_tokens (logout s) = None /\
  svc_user (logout s) = None /\
  localStorage (logout s) !! "access_token" = None /\
  localStorage (logout s) !! "refresh_token" = None /\
  localStorage (logout s) !! "user" = None /\
  (forall k, k <> "access_token" -> k <> "refresh_token" -> k <> "user" ->
             localStorage (logout s) !! k = localStorage s !! k).
Proof.
  unfold logout; simpl. repeat apply conj; try reflexivity.
  - rewrite !lookup_delete_ne by discriminate. apply lookup_delete_eq.
  - rewrite lookup_delete_ne by discriminate. apply lookup_delete_eq.
  - apply lookup_delete_eq.
  - intros k H1 H2 H3. rewrite !lookup_delete_ne by congruence. reflexivity.
Qed.

Lemma logout_logout s : logout (logout s) = logout s.
Proof.
  unfold logout, removeItem, set_user, set_tokens; simpl. f_equal.
  apply map_eq. intros k.
  destruct (decide (k = "user")) as [->|H3];
    [by rewrite !lookup_delete_eq|].
  rewrite (lookup_delete_ne _ "user" k) by congruence.
  rewrite (lookup_delete_ne _ "user" k) by congruence.
  destruct (decide (k = "refresh_token")) as [->|H2];
    [by rewrite !lookup_delete_eq|].
  rewrite (lookup_delete_ne _ "refresh_token" k) by congruence.
  rewrite (lookup_delete_ne _ "refresh_token" k) by congruence.
  destruct (decide (k = "access_token")) as [->|H1];
    [by rewrite !lookup_delete_eq|].
  rewrite (lookup_delete_ne _ "access_token" k) by congruence.
  rewrite (lookup_delete_ne _ "access_token" k) by congruence.
  rewrite !lookup_delete_ne by congruence. reflexivity.
Qed.

(** C9. From any state, [logout] leads to a state in which
    [getAccessToken()], [getRefreshToken()] and [getUser()] return [null]
    and [isAuthenticated()] returns [false]; [getUser()] does not change
    that state, and a second [logout] leaves it unchanged. *)
Theorem logout_idempotent (JSON_parse : string -> option User) (s : State) :
  getAccessToken (logout s) = None /\
  getRefreshToken (logout s) = None /\
  isAuthenticated (logout s) = false /\
  getUser JSON_parse (logout s) = (logout s, None) /\
  logout (logout s) = logout s.
Proof.
  repeat apply conj; try reflexivity.
  - unfold getUser, getItem.
    destruct (logout_clears s) as (_ & -> & _ & _ & -> & _). reflexivity.
  - apply logout_logout.
Qed.

End AuthFacts.

(* ===================================================================== *)
(** * Properties of the API client                                        *)
(* ===================================================================== *)

Section ApiFacts.
Import JS Api.

Lemma api_step fuel net w config :
  api (S fuel) net w config =
  let config' := request_interceptor (auth w) config in
  let answer := server net (clock w) config' in
  match answer with
  | Resolves r =>
      Some {| final := tick w; events := [Sent config'; Answered answer];
              result := Fulfilled r |}
  | Fails msg r =>
      after [Sent config'; Answered answer]
        (response_interceptor_rejected (api fuel net) net (tick w)
           {| err_message := msg; response := r; config := config' |})
  end.
Proof. reflexivity. Qed.

Lemma status_is_401_false (error : AxiosError) :
  (forall resp, response error = Some resp -> status resp <> 401%Z) ->
  status_is_401 error = false.
Proof.
  unfold status_is_401. destruct (response error) as [resp|]; [|reflexivity].
  intros H. apply Z.eqb_neq. apply H. reflexivity.
Qed.

(** The rejected handler passes on every error that is not a 401, without
    calling the client again. *)
Lemma response_interceptor_passes_on retry net w error :
  (forall resp, response error = Some resp -> status resp <> 401%Z) ->
  response_interceptor_rejected retry net w error =
  Some {| final := w; events := []; result := Rejected error |}.
Proof.
  intros H. unfold response_interceptor_rejected.
  rewrite (status_is_401_false _ H). reflexivity.
Qed.

(** One exchange with a failure that is not a 401. *)
Lemma api_passes_failure_on fuel net w config msg r :
  server net (clock w) (request_interceptor (auth w) config) = Fails msg r ->
  (forall resp, r = Some resp -> status resp <> 401%Z) ->
  api (S fuel) net w config =
  Some {| final := tick w;
          events := [Sent (request_interceptor (auth w) config);
                     Answered (Fails msg r)];
          result := Rejected {| err_message := msg; response := r;
                                config := request_interceptor (auth w) config |} |}.
Proof.
  intros Hans Hst. rewrite api_step. cbv zeta. rewrite Hans.
  rewrite response_interceptor_passes_on by exact Hst. reflexivity.
Qed.

(** C5. When the answer to a request is a failure whose status is not 401
    (or a failure without any response), the client sends the request once,
    makes no refresh, changes nothing in the browser besides its clock, and
    rejects with the error of that one answer. *)
Theorem non_401_failure_is_terminal
    (fuel : nat) (net : Network) (w : Browser) (config : RequestConfig)
    (msg : string) (r : option AxiosResponse) :
  server net (clock w) (request_interceptor (auth w) config) = Fails msg r ->
  (forall resp, r = Some resp -> status resp <> 401%Z) ->
  exists run,
    api (S fuel) net w config = Some run /\
    result run =
      Rejected {| err_message := msg; response := r;
                  config := request_interceptor (auth w) config |} /\
    events run =
      [Sent (request_interceptor (auth w) config); Answered (Fails msg r)] /\
    count is_sent (events run) = 1%nat /\
    count is_refresh (events run) = 0%nat /\
    final run = tick w.
Proof.
  intros Hans Hst. rewrite (api_passes_failure_on _ _ _ _ _ _ Hans Hst).
  eexists. split; [reflexivity|]. simpl. auto.
Qed.

Lemma getAccessToken_Some s token :
  Auth.getAccessToken s = Some token <->
  exists t, Auth.svc_tokens s = Some t /\ Auth.access t = token /\
            token <> "".
Proof.
  unfold Auth.getAccessToken, or_null. split.
  - destruct (Auth.svc_tokens s) as [t|]; simpl; [|discriminate].
    destruct (Auth.access t) eqn:Ha; simpl; [discriminate|].
    intros [= <-]. exists t. repeat split; auto; discriminate.
  - intros (t & -> & <- & Hne). simpl.
    destruct (Auth.access t); simpl; [contradiction|reflexivity].
Qed.

Lemma first_event_is_sent fuel net w config run :
  api fuel net w config = Some run ->
  exists rest,
    events run = Sent (request_interceptor (auth w) config) :: rest.
Proof.
  destruct fuel as [|fuel]; [discriminate|]. rewrite api_step. cbv zeta.
  destruct (server net (clock w) _) as [resp|msg r].
  - intros [= <-]. simpl. eauto.
  - destruct (response_interceptor_rejected _ _ _ _) as [run'|];
      [|discriminate].
    intros [= <-]. simpl. eauto.
Qed.

(** The first request a service call sends carries the bearer header of
    the token stored at that time, and no [Authorization] header when none
    is stored. *)
Lemma service_request_header fuel net w m endpoint ps d run :
  api fuel net w (new_request m endpoint ps d) = Some run ->
  exists c rest,
    events run = Sent c :: rest /\
    Authorization c =
      (fun token => "Bearer " +:+ token) <$> Auth.getAccessToken (auth w).
Proof.
  intros Hrun. destruct (first_event_is_sent _ _ _ _ _ Hrun) as (rest & Hev).
  eexists _, rest. split; [exact Hev|].
  unfold request_interceptor, Authorization.
  destruct (Auth.getAccessToken (auth w)) as [token|]; simpl.
  - apply lookup_insert_eq.
  - reflexivity.
Qed.

(** The rejected handler on a 401 whose refresh succeeds: it calls the
    client again, once, on the original request with the header rebuilt
    from [getAccessToken()]. *)
Lemma response_interceptor_retries retry net w error s :
  status_is_401 error = true ->
  Auth.refreshAccessToken (refresh_endpoint net (clock w)) (auth w)
    = (s, true) ->
  response_interceptor_rejected retry net w error =
  after [Refresh true]
    (retry (tick (set_auth s w))
       (set_header "Authorization"
          ("Bearer " +:+ template (Auth.getAccessToken s)) (config error))).
Proof.
  intros H401 Href. unfold response_interceptor_rejected.
  rewrite H401, Href. reflexivity.
Qed.

(** The request interceptor, which every request of the client passes:
    when an access token is stored the request leaves with the header
    [Authorization: Bearer <token>]; when none is stored the interceptor
    leaves the request as it is, so a request built by [apiService] leaves
    without an [Authorization] header. [getAuthHeader] gives the same
    header, or the empty object. *)
Theorem bearer_header_attached (s : Auth.State) (config : RequestConfig) :
  match Auth.getAccessToken s with
  | Some token =>
      Authorization (request_interceptor s config)
        = Some ("Bearer " +:+ token) /\
      Auth.getAuthHeader s = {[ "Authorization" := "Bearer " +:+ token ]} /\
      exists t, Auth.svc_tokens s = Some t /\ Auth.access t = token
  | None =>
      request_interceptor s config = config /\
      Auth.getAuthHeader s = ∅ /\
      (forall m endpoint ps d,
          Authorization (request_interceptor s (new_request m endpoint ps d))
            = None)
  end.
Proof.
  destruct (Auth.getAccessToken s) as [token|] eqn:Htok.
  - repeat apply conj.
    + unfold request_interceptor, Authorization. rewrite Htok. simpl.
      apply lookup_insert_eq.
    + unfold Auth.getAuthHeader. rewrite Htok. reflexivity.
    + apply getAccessToken_Some in Htok. destruct Htok as (t & ? & ? & _).
      eauto.
  - repeat apply conj.
    + unfold request_interceptor. rewrite Htok. reflexivity.
    + unfold Auth.getAuthHeader. rewrite Htok. reflexivity.
    + intros. unfold request_interceptor. rewrite Htok. reflexivity.
Qed.

Lemma status_is_401_true (error : AxiosError) :
  status_is_401 error = true ->
  exists resp, response error = Some resp /\ status resp = 401%Z.
Proof.
  unfold status_is_401. destruct (response error) as [resp|]; [|discriminate].
  intros H. apply Z.eqb_eq in H. eauto.
Qed.

Lemma refresh_fails_false fetch s :
  refresh_fails fetch s -> Auth.refreshAccessToken fetch s = (s, false).
Proof.
  unfold Auth.refreshAccessToken.
  intros [Hnone|(r & Hr & [(e & He)|[(b & Hb)|(e & He)]])].
  - rewrite Hnone. reflexivity.
  - rewrite Hr, He. reflexivity.
  - rewrite Hr, Hb. reflexivity.
  - rewrite Hr, He. reflexivity.
Qed.

Lemma refresh_false_fails fetch s s' :
  Auth.refreshAccessToken fetch s = (s', false) -> refresh_fails fetch s.
Proof.
  unfold Auth.refreshAccessToken, refresh_fails.
  destruct (Auth.getRefreshToken s) as [r|]; [|auto].
  destruct (fetch r) as [e|b|[e|d]] eqn:Hf; intros H; try discriminate;
    right; exists r; split; eauto.
Qed.

Lemma logout_cleared s : credentials_cleared (Auth.logout s).
Proof.
  destruct (logout_clears s) as (H1 & H2 & H3 & H4 & H5 & _).
  unfold credentials_cleared. auto.
Qed.

(** The rejected handler on a 401 whose refresh fails. *)
Lemma response_interceptor_logs_out retry net w error :
  status_is_401 error = true ->
  refresh_fails (refresh_endpoint net (clock w)) (auth w) ->
  response_interceptor_rejected retry net w error =
  Some {| final :=
            set_location_href "/login"
              (set_auth (Auth.logout (auth w)) (tick w));
          events := [Refresh false; Navigate "/login"];
          result := Rejected error |}.
Proof.
  intros H401 Hfail. unfold response_interceptor_rejected.
  rewrite H401, (refresh_fails_false _ _ Hfail). reflexivity.
Qed.

(** C2, as the code has it. When the refresh made by the response
    interceptor after a 401 fails (no refresh token stored, [fetch]
    rejecting, a response that is not ok, or a body that cannot be read),
    the client clears the access token, the refresh token and the user, in
    memory and in [localStorage], assigns [/login] to
    [window.location.href] and rejects with the 401 error. When the
    refresh made through [refreshToken] of the [useAuth] hook fails, the
    same credentials are cleared and the hook reports a logged-out user,
    and [window.location.href] is left as it was. *)
Theorem refresh_failure_clears_credentials
    (fuel : nat) (net : Network) (w : Browser) (config : RequestConfig)
    (msg : string) (resp : AxiosResponse)
    (fetch : string -> Auth.Reply Auth.RefreshData)
    (h : UseAuth.HookState) :
  (server net (clock w) (request_interceptor (auth w) config)
     = Fails msg (Some resp) ->
   status resp = 401%Z ->
   refresh_fails (refresh_endpoint net (S (clock w))) (auth w) ->
   exists run,
     api (S fuel) net w config = Some run /\
     credentials_cleared (auth (final run)) /\
     location_href (final run) = "/login" /\
     result run =
       Rejected {| err_message := msg; response := Some resp;
                   config := request_interceptor (auth w) config |} /\
     count is_sent (events run) = 1%nat) /\
  (refresh_fails fetch (auth w) ->
   exists w' h',
     UseAuth.refreshToken fetch w h = (w', h', false) /\
     credentials_cleared (auth w') /\
     UseAuth.user h' = None /\
     UseAuth.isAuthenticated h' = false /\
     location_href w' = location_href w).
Proof.
  split.
  - intros Hans H401 Hfail. rewrite api_step. cbv zeta. rewrite Hans.
    rewrite response_interceptor_logs_out.
    + eexists. split; [reflexivity|]. simpl.
      split; [apply logout_cleared|]. repeat apply conj; reflexivity.
    + unfold status_is_401; simpl. apply Z.eqb_eq. exact H401.
    + exact Hfail.
  - intros Hfail. unfold UseAuth.refreshToken.
    rewrite (refresh_fails_false _ _ Hfail). simpl.
    eexists _, _. split; [reflexivity|]. simpl.
    split; [apply logout_cleared|]. repeat apply conj; reflexivity.
Qed.

Lemma refresh_only_after_401_sent prev c rest :
  refresh_only_after_401 prev (Sent c :: rest) =
  refresh_only_after_401 (Some (Sent c)) rest.
Proof. reflexivity. Qed.

(** Each 401 answer is followed by one refresh, and each successful
    refresh by one more request: a run with [n] answers of status 401 makes
    [n] refreshes. *)
Lemma one_refresh_per_401 fuel net w config run :
  api fuel net w config = Some run ->
  count is_refresh (events run) = count is_401 (events run) /\
  count is_sent (events run) =
    S (count (fun e => match e with Refresh true => true | _ => false end)
         (events run)).
Proof.
  revert w config run. induction fuel as [|fuel IH]; [discriminate|].
  intros w config run. rewrite api_step. cbv zeta.
  destruct (server net (clock w) _) as [r|msg r] eqn:Hans.
  - intros [= <-]. split; reflexivity.
  - unfold response_interceptor_rejected.
    destruct (status_is_401 _) eqn:H401.
    + destruct (status_is_401_true _ H401) as (resp & Hr & Hs).
      simpl in Hr. subst r.
      assert (Hz : (status resp =? 401)%Z = true)
        by (apply Z.eqb_eq; exact Hs).
      destruct (Auth.refreshAccessToken _ _) as [s refreshed].
      destruct refreshed.
      * destruct (api fuel net _ _) as [run'|] eqn:Hrec; [|discriminate].
        intros [= <-]. destruct (IH _ _ _ Hrec) as [IH1 IH2].
        unfold count in *. simpl. unfold is_401. simpl.
        rewrite Hz. simpl. rewrite IH1, IH2. split; reflexivity.
      * intros [= <-]. unfold count, is_401. simpl. rewrite Hz.
        split; reflexivity.
    + unfold status_is_401 in H401. simpl in H401.
      intros [= <-]. unfold count, is_401. simpl.
      destruct r as [resp|]; [rewrite H401|]; split; reflexivity.
Qed.

Lemma refreshes_follow_401 fuel net w config run :
  api fuel net w config = Some run ->
  refresh_only_after_401 None (events run) = true.
Proof.
  revert w config run. induction fuel as [|fuel IH]; [discriminate|].
  intros w config run. rewrite api_step. cbv zeta.
  destruct (server net (clock w) _) as [r|msg r] eqn:Hans.
  - intros [= <-]. reflexivity.
  - unfold response_interceptor_rejected.
    destruct (status_is_401 _) eqn:H401.
    + destruct (status_is_401_true _ H401) as (resp & Hr & Hs).
      simpl in Hr. subst r.
      assert (Hz : (status resp =? 401)%Z = true)
        by (apply Z.eqb_eq; exact Hs).
      destruct (Auth.refreshAccessToken _ _) as [s refreshed].
      destruct refreshed.
      * destruct (api fuel net _ _) as [run'|] eqn:Hrec; [|discriminate].
        intros [= <-]. simpl. rewrite Hz. simpl.
        destruct (first_event_is_sent _ _ _ _ _ Hrec) as (rest & Hev).
        pose proof (IH _ _ _ Hrec) as Hrun'. rewrite Hev in *.
        exact Hrun'.
      * intros [= <-]. simpl. rewrite Hz. reflexivity.
    + intros [= <-]. reflexivity.
Qed.

(** C6. In every call of the client, each run of
    [authService.refreshAccessToken()] comes directly after an answer with
    status 401, and there are as many of them as there are such answers: a
    call that meets no 401 makes no refresh. The client keeps no expiry and
    no timer, and the response interceptor is its only place that starts a
    refresh. *)
Theorem refresh_is_reactive
    (fuel : nat) (net : Network) (w : Browser) (config : RequestConfig)
    (run : Run AxiosResponse) :
  api fuel net w config = Some run ->
  refresh_only_after_401 None (events run) = true /\
  count is_refresh (events run) = count is_401 (events run).
Proof.
  intros Hrun. split.
  - exact (refreshes_follow_401 _ _ _ _ _ Hrun).
  - exact (proj1 (one_refresh_per_401 _ _ _ _ _ Hrun)).
Qed.

Lemma getRefreshToken_storeTokens s r a :
  Auth.getRefreshToken s = Some r ->
  Auth.getRefreshToken
    (Auth.storeTokens {| Auth.access := a; Auth.refresh := r |} s) = Some r.
Proof.
  unfold Auth.getRefreshToken, or_null. simpl.
  destruct (Auth.svc_tokens s) as [t|]; simpl; [|discriminate].
  destruct (truthy (Auth.refresh t)) eqn:Ht; [|discriminate].
  intros [= <-]. rewrite Ht. reflexivity.
Qed.

(** Against an API that keeps answering 401 while the refresh endpoint
    keeps granting tokens, the client refreshes and sends again without
    end: no bound on the number of requests lets the call settle. *)
Lemma refresh_loop_never_settles fuel w config :
  Auth.getRefreshToken (auth w) <> None ->
  api fuel never_accepts w config = None.
Proof.
  revert w config. induction fuel as [|fuel IH]; [reflexivity|].
  intros w config Hr. rewrite api_step. cbv zeta.
  unfold never_accepts at 1. simpl server. unfold unauthorized.
  unfold response_interceptor_rejected, status_is_401. simpl.
  unfold Auth.refreshAccessToken.
  destruct (Auth.getRefreshToken (auth w)) as [r|] eqn:Hrt; [|contradiction].
  simpl. rewrite IH; [reflexivity|]. simpl.
  rewrite (getRefreshToken_storeTokens _ _ _ Hrt). discriminate.
Qed.

(** C1, where the code departs from it. One request, answered 401 twice:
    the client runs [refreshAccessToken] twice and sends the request three
    times, the second and third time with the refreshed token. The request
    sent again passes the same response interceptor, which refreshes again
    on the next 401. *)
Theorem second_401_starts_second_refresh :
  exists run,
    api 3 slow_to_accept home_page list_products = Some run /\
    count is_refresh (events run) = 2%nat /\
    count is_sent (events run) = 3%nat /\
    List.map Authorization (sent_requests (events run)) =
      [Some "Bearer stale-access"; Some "Bearer fresh-access";
       Some "Bearer fresh-access"] /\
    result run = Fulfilled {| status := 200; body := "[]" |}.
Proof.
  eexists. split; [reflexivity|]. vm_compute. auto.
Qed.

(** The request sent again after a refresh that stored an empty access
    token carries the text of [null]. *)
(** The same read off the stored tokens rather than off the getter: a
    stored access token that is not empty is the one attached, and without
    one the interceptor changes nothing. *)
Lemma stored_token_is_attached (s : Auth.State) (config : RequestConfig) :
  (forall t,
      Auth.svc_tokens s = Some t -> Auth.access t <> "" ->
      Authorization (request_interceptor s config)
        = Some ("Bearer " +:+ Auth.access t)) /\
  ((Auth.svc_tokens s = None \/
    exists t, Auth.svc_tokens s = Some t /\ Auth.access t = "") ->
   request_interceptor s config = config).
Proof.
  split.
  - intros t Ht Hne.
    assert (Htok : Auth.getAccessToken s = Some (Auth.access t)).
    { apply getAccessToken_Some. exists t. auto. }
    unfold request_interceptor, Authorization. rewrite Htok. simpl.
    apply lookup_insert_eq.
  - intros Hnone.
    assert (Htok : Auth.getAccessToken s = None).
    { unfold Auth.getAccessToken.
      destruct Hnone as [->|(t & -> & Hempty)]; simpl; [reflexivity|].
      rewrite Hempty. reflexivity. }
    unfold request_interceptor. rewrite Htok. reflexivity.
Qed.

(** C7, at the input where the code departs from it.  A signed-in user
    lists the products; the API answers 401 and the refresh endpoint grants
    an empty access token.  The client settles with the answer to a second
    request, and that request left with the header
    [Authorization: Bearer null] although no access token was stored when
    it was sent: the stored access token is the empty one and
    [getAccessToken()] is [null], from the refresh to the end of the
    call. *)
Theorem reissued_request_carries_bearer_null :
  exists run first second,
    api 2 grants_empty_token home_page list_products = Some run /\
    sent_requests (events run) = [first; second] /\
    Authorization first = Some "Bearer stale-access" /\
    Authorization second = Some "Bearer null" /\
    count is_refresh (events run) = 1%nat /\
    Auth.access <$> Auth.svc_tokens (auth (final run)) = Some "" /\
    Auth.localStorage (auth (final run)) !! "access_token" = Some "" /\
    Auth.getAccessToken (auth (final run)) = None.
Proof.
  eexists. eexists. eexists.
  split; [reflexivity|]. split; [vm_compute; reflexivity|].
  repeat split; vm_compute; reflexivity.
Qed.

Example empty_access_token_sends_bearer_null :
  exists run,
    api 2 grants_empty_token home_page list_products = Some run /\
    List.map Authorization (sent_requests (events run)) =
      [Some "Bearer stale-access"; Some "Bearer null"].
Proof.
  eexists. split; [reflexivity|]. vm_compute. reflexivity.
Qed.





Lemma refresh_failure_clears_credentials_witness :
  (exists run,
      api 1 session_expired home_page list_products = Some run /\
      credentials_cleared (auth (final run)) /\
      location_href (final run) = "/login" /\
      result run =
        Rejected
          {| err_message := "Request failed with status code 401";
             response :=
               Some {| status := 401;
                       body := "detail: Given token not valid" |};
             config := request_interceptor (auth home_page) list_products |}
      /\
      count is_sent (events run) = 1%nat) /\
  (exists w' h',
      UseAuth.refreshToken refuses_token home_page signed_in_hook
        = (w', h', false) /\
      credentials_cleared (auth w') /\
      UseAuth.user h' = None /\
      UseAuth.isAuthenticated h' = false /\
      location_href w' = location_href home_page).
Proof.
  destruct (refresh_failure_clears_credentials 0 session_expired home_page
              list_products "Request failed with status code 401"
              {| status := 401; body := "detail: Given token not valid" |}
              refuses_token signed_in_hook) as [Hclient Hhook].
  split.
  - apply Hclient; [reflexivity|reflexivity|].
    right. exists "refresh-1". split; [reflexivity|].
    right. left. eexists. reflexivity.
  - apply Hhook.
    right. exists "refresh-1". split; [reflexivity|].
    right. left. eexists. reflexivity.
Defined.

(** C2 fails as stated. A refresh that fails inside [refreshToken] of the
    [useAuth] hook logs the user out and leaves the browser on the page it
    was on. *)
Lemma hook_refresh_failure_stays_on_page :
  exists w' h',
    UseAuth.refreshToken refuses_token home_page signed_in_hook
      = (w', h', false) /\
    location_href w' = "/" /\
    location_href w' <> "/login".
Proof.
  eexists _, _. split; [reflexivity|]. simpl. split; [reflexivity|].
  discriminate.
Qed.

Lemma non_401_failure_is_terminal_witness :
  exists run,
    api 1 broken_server home_page list_products = Some run /\
    result run =
      Rejected
        {| err_message := "Request failed with status code 500";
           response :=
             Some {| status := 500; body := "detail: Database unavailable" |};
           config := request_interceptor (auth home_page) list_products |} /\
    events run =
      [Sent (request_interceptor (auth home_page) list_products);
       Answered server_error] /\
    count is_sent (events run) = 1%nat /\
    count is_refresh (events run) = 0%nat /\
    final run = tick home_page.
Proof.
  apply (non_401_failure_is_terminal 0 broken_server home_page list_products).
  - reflexivity.
  - intros resp [= <-]. simpl. lia.
Defined.

Lemma refresh_is_reactive_witness :
  exists run,
    api 3 slow_to_accept home_page list_products = Some run /\
    refresh_only_after_401 None (events run) = true /\
    count is_refresh (events run) = count is_401 (events run).
Proof.
  eexists. split; [reflexivity|].
  apply (refresh_is_reactive 3 slow_to_accept home_page list_products).
  reflexivity.
Defined.

End ApiFacts.

(* ===================================================================== *)
(** * Regular expressions: the matcher and the strings denoted            *)
(* ===================================================================== *)

Section RegexFacts.
Import Regex.

Lemma append_nil_l (s : string) : "" ++ s = s.
Proof. reflexivity. Qed.

Lemma append_cons a (s1 s2 : string) : String a s1 ++ s2 = String a (s1 ++ s2).
Proof. reflexivity. Qed.

Lemma append_empty_r (s : string) : s ++ "" = s.
Proof.
  induction s as [|a s IH]; [reflexivity|].
  rewrite append_cons, IH. reflexivity.
Qed.

Lemma append_assoc (s1 s2 s3 : string) : (s1 ++ s2) ++ s3 = s1 ++ s2 ++ s3.
Proof.
  induction s1 as [|a s1 IH]; [reflexivity|].
  rewrite !append_cons, IH. reflexivity.
Qed.

Lemma append_eq_empty (s1 s2 : string) :
  s1 ++ s2 = "" -> s1 = "" /\ s2 = "".
Proof.
  destruct s1; [rewrite append_nil_l; auto|rewrite append_cons; discriminate].
Qed.

Lemma length_append (s1 s2 : string) :
  String.length (s1 ++ s2) = (String.length s1 + String.length s2)%nat.
Proof.
  induction s1 as [|a s1 IH]; [reflexivity|].
  rewrite append_cons. simpl. rewrite IH. reflexivity.
Qed.

Lemma nullable_lang r : nullable r = true <-> lang r "".
Proof.
  induction r as [| |p|r1 IH1 r2 IH2|r1 IH1 r2 IH2|r1 IH1]; simpl.
  - split; [discriminate|contradiction].
  - split; reflexivity.
  - split; [discriminate|]. intros (a & Ha & _). discriminate.
  - rewrite andb_true_iff, IH1, IH2. split.
    + intros [H1 H2]. exists "", "". auto.
    + intros (s1 & s2 & Hs & H1 & H2). symmetry in Hs.
      apply append_eq_empty in Hs. destruct Hs as [-> ->]. auto.
  - rewrite orb_true_iff, IH1, IH2. reflexivity.
  - split; [intros _; constructor|reflexivity].
Qed.

(** A non-empty string of [L*] starts with a non-empty string of [L]. *)
Lemma star_cons_inv (L : string -> Prop) a s :
  star L (String a s) ->
  exists s1 s2, s = s1 ++ s2 /\ L (String a s1) /\ star L s2.
Proof.
  intros H. remember (String a s) as t eqn:Ht. revert a s Ht.
  induction H as [|s1 s2 H1 H2 IH]; intros a s Ht; [discriminate|].
  destruct s1 as [|b s1].
  - rewrite append_nil_l in Ht. apply IH. exact Ht.
  - rewrite append_cons in Ht. injection Ht as -> <-. eauto.
Qed.

Lemma deriv_lang a r s : lang (deriv a r) s <-> lang r (String a s).
Proof.
  revert s.
  induction r as [| |p|r1 IH1 r2 IH2|r1 IH1 r2 IH2|r1 IH1]; intros s; simpl.
  - reflexivity.
  - split; [contradiction|discriminate].
  - destruct (p a) eqn:Hp; simpl.
    + split.
      * intros ->. eauto.
      * intros (b & [= <- ->] & _). reflexivity.
    + split; [contradiction|].
      intros (b & [= <- ->] & Hb). congruence.
  - assert (Hleft : (exists s1 s2, s = s1 ++ s2 /\
                        lang (deriv a r1) s1 /\ lang r2 s2) <->
                    (exists s1 s2, String a s = String a s1 ++ s2 /\
                        lang r1 (String a s1) /\ lang r2 s2)).
    { split; intros (s1 & s2 & Hs & H1 & H2); exists s1, s2.
      - subst s. apply IH1 in H1. rewrite append_cons. auto.
      - rewrite append_cons in Hs. injection Hs as ->.
        apply IH1 in H1. auto. }
    destruct (nullable r1) eqn:Hn; simpl.
    + rewrite Hleft, IH2. split.
      * intros [(s1 & s2 & Hs & H1 & H2)|H2]; [eauto|].
        exists "", (String a s). repeat split; [|exact H2].
        apply nullable_lang. exact Hn.
      * intros (s1 & s2 & Hs & H1 & H2). destruct s1 as [|b s1].
        -- right. rewrite append_nil_l in Hs. subst s2. exact H2.
        -- left. rewrite append_cons in Hs. injection Hs as <- ->.
           exists s1, s2. rewrite append_cons. auto.
    + rewrite Hleft. split.
      * intros (s1 & s2 & Hs & H1 & H2). eauto.
      * intros (s1 & s2 & Hs & H1 & H2). destruct s1 as [|b s1].
        -- apply nullable_lang in H1. congruence.
        -- rewrite append_cons in Hs. injection Hs as <- ->.
           exists s1, s2. rewrite append_cons. auto.
  - rewrite IH1, IH2. reflexivity.
  - split.
    + intros (s1 & s2 & -> & H1 & H2). apply IH1 in H1.
      rewrite <- append_cons. constructor; assumption.
    + intros H. apply star_cons_inv in H.
      destruct H as (s1 & s2 & -> & H1 & H2).
      exists s1, s2. rewrite IH1. auto.
Qed.

(** The matcher decides membership in the language. *)
Lemma matches_lang r s : matches r s = true <-> lang r s.
Proof.
  revert r. induction s as [|a s IH]; intros r; simpl.
  - apply nullable_lang.
  - rewrite IH. apply deriv_lang.
Qed.

Lemma star_any s : star (lang any) s.
Proof.
  induction s as [|a s IH]; [constructor|].
  change (String a s) with (String a "" ++ s). constructor; [|exact IH].
  simpl. eauto.
Qed.

Lemma star_class p s : star (lang (Class p)) s <-> every_char p s = true.
Proof.
  split.
  - induction 1 as [|s1 s2 (a & -> & Ha) _ IH]; [reflexivity|].
    rewrite append_cons, append_nil_l. simpl. rewrite Ha, IH. reflexivity.
  - induction s as [|a s IH]; simpl; [constructor|].
    rewrite andb_true_iff. intros [Ha Hs].
    change (String a s) with (String a "" ++ s).
    constructor; [simpl; eauto|auto].
Qed.

(** [[p]+] matches the non-empty strings over [p]. *)
Lemma plus_class p s :
  lang (Plus (Class p)) s <-> s <> "" /\ every_char p s = true.
Proof.
  unfold Plus. simpl. split.
  - intros (s1 & s2 & -> & (a & -> & Ha) & Hs). apply star_class in Hs.
    rewrite append_cons, append_nil_l. simpl. rewrite Ha, Hs.
    split; [discriminate|reflexivity].
  - intros [Hne Hall]. destruct s as [|a s]; [contradiction|].
    simpl in Hall. apply andb_true_iff in Hall. destruct Hall as [Ha Hs].
    exists (String a ""), s. repeat split; [eauto|].
    apply star_class. exact Hs.
Qed.

Lemma some_char_append p s1 s2 :
  some_char p (s1 ++ s2) = some_char p s1 || some_char p s2.
Proof.
  induction s1 as [|a s1 IH]; [reflexivity|].
  rewrite append_cons. simpl. rewrite IH. apply orb_assoc.
Qed.

Lemma every_char_append p s1 s2 :
  every_char p (s1 ++ s2) = every_char p s1 && every_char p s2.
Proof.
  induction s1 as [|a s1 IH]; [reflexivity|].
  rewrite append_cons. simpl. rewrite IH. apply andb_assoc.
Qed.

Lemma some_char_split p s :
  some_char p s = true ->
  exists s1 a s2, s = s1 ++ String a s2 /\ p a = true.
Proof.
  induction s as [|a s IH]; simpl; [discriminate|].
  destruct (p a) eqn:Ha; simpl.
  - intros _. exists "", a, s. auto.
  - intros H. destruct (IH H) as (s1 & b & s2 & -> & Hb).
    exists (String a s1), b, s2. auto.
Qed.

(** [/[p]/.test(s)]: some code unit of [s] is in [p]. *)
Lemma test_class p s : test (Class p) s = some_char p s.
Proof.
  apply eq_true_iff_eq. unfold test. rewrite matches_lang. simpl. split.
  - intros (s1 & s2 & -> & _ & (s3 & s4 & -> & (a & -> & Ha) & _)).
    rewrite !some_char_append. simpl. rewrite Ha.
    rewrite !orb_true_r. reflexivity.
  - intros H. destruct (some_char_split _ _ H) as (s1 & a & s2 & -> & Ha).
    exists s1, (String a s2). repeat split; [apply star_any|].
    exists (String a ""), s2. repeat split; [eauto|apply star_any].
Qed.

(** [/^[p]+$/.test(s)]: [s] is not empty and all of it is in [p]. *)
Lemma test_anchored_plus p s :
  test_anchored (Plus (Class p)) s = true <-> s <> "" /\ every_char p s = true.
Proof. unfold test_anchored. rewrite matches_lang. apply plus_class. Qed.

End RegexFacts.

(* ===================================================================== *)
(** * What the validators accept                                          *)
(* ===================================================================== *)

Section ValidatorFacts.
Import Regex Validation.

Lemma no_errors_push_if c e errors :
  no_errors (push_if c e errors) = negb c && no_errors errors.
Proof.
  unfold push_if, no_errors. destruct c; simpl; [|reflexivity].
  rewrite List.length_app. simpl. destruct (List.length errors); reflexivity.
Qed.

Lemma lang_cat r1 r2 s :
  lang (Cat r1 r2) s <->
  exists s1 s2, s = s1 ++ s2 /\ lang r1 s1 /\ lang r2 s2.
Proof. reflexivity. Qed.

Lemma lang_lit c s : lang (Lit c) s <-> s = String c "".
Proof.
  unfold Lit. simpl. split.
  - intros (a & -> & Ha). apply Ascii.eqb_eq in Ha. subst a. reflexivity.
  - intros ->. exists c. split; [reflexivity|apply Ascii.eqb_refl].
Qed.

(** X1. A password is accepted exactly when it has at least 8 code units
    and holds an upper-case letter, a lower-case letter and a digit. *)
Theorem validatePassword_accepts_iff (password : string) :
  isValid (validatePassword password) = true <->
  (8 <= length password)%Z /\
  some_char is_upper password = true /\
  some_char is_lower password = true /\
  some_char is_digit password = true.
Proof.
  unfold validatePassword. cbv zeta. simpl isValid.
  rewrite !no_errors_push_if, !test_class. simpl no_errors.
  rewrite andb_true_r, !andb_true_iff, !negb_true_iff, !negb_false_iff.
  rewrite Z.ltb_ge. tauto.
Qed.

(** X2. A username is accepted exactly when it has between 3 and 30 code
    units, both bounds included, all of them letters, digits or
    underscores. *)
Theorem validateUsername_accepts_iff (username : string) :
  isValid (validateUsername username) = true <->
  (3 <= length username <= 30)%Z /\
  every_char is_word username = true.
Proof.
  unfold validateUsername. cbv zeta. simpl isValid.
  rewrite !no_errors_push_if. simpl no_errors.
  rewrite andb_true_r, !andb_true_iff, !negb_true_iff, negb_false_iff.
  rewrite Z.ltb_ge, Z.gtb_ltb, Z.ltb_ge, test_anchored_plus.
  split.
  - intros ((_ & Hw) & Hhi & Hlo). auto.
  - intros ((Hlo & Hhi) & Hw). repeat split; auto.
    intros ->. unfold length in Hlo. simpl in Hlo. lia.
Qed.

(** X3. An e-mail address is accepted exactly when it reads
    [local@domain.tld] where each of the three parts is a non-empty run of
    code units that are neither white space nor [@]. *)
Theorem validateEmail_accepts_iff (email : string) :
  isValid (validateEmail email) = true <->
  exists local domain tld,
    email = local ++ "@" ++ domain ++ "." ++ tld /\
    email_part local /\ email_part domain /\ email_part tld.
Proof.
  unfold validateEmail. cbv zeta. simpl isValid.
  unfold test_anchored. rewrite matches_lang. unfold emailRegex, email_part.
  split.
  - intros H.
    apply lang_cat in H. destruct H as (a & s1 & -> & Ha & H).
    apply lang_cat in H. destruct H as (at_ & s2 & -> & Hat & H).
    apply lang_cat in H. destruct H as (b & s3 & -> & Hb & H).
    apply lang_cat in H. destruct H as (dot & c & -> & Hdot & Hc).
    apply lang_lit in Hat. apply lang_lit in Hdot. subst at_ dot.
    apply plus_class in Ha. apply plus_class in Hb. apply plus_class in Hc.
    exists a, b, c. auto.
  - intros (a & b & c & -> & Ha & Hb & Hc).
    apply lang_cat. exists a, ("@" ++ b ++ "." ++ c).
    split; [reflexivity|]. split; [apply plus_class; exact Ha|].
    apply lang_cat. exists "@", (b ++ "." ++ c).
    split; [reflexivity|]. split; [apply lang_lit; reflexivity|].
    apply lang_cat. exists b, ("." ++ c).
    split; [reflexivity|]. split; [apply plus_class; exact Hb|].
    apply lang_cat. exists ".", c.
    split; [reflexivity|]. split; [apply lang_lit; reflexivity|].
    apply plus_class. exact Hc.
Qed.

Lemma trimStart_empty s : trimStart s = "" <-> every_char is_space s = true.
Proof.
  induction s as [|a s IH]; simpl; [split; reflexivity|].
  destruct (is_space a); simpl; [exact IH|]. split; discriminate.
Qed.

Lemma trimEnd_empty s : trimEnd s = "" <-> every_char is_space s = true.
Proof.
  induction s as [|a s IH]; simpl; [split; reflexivity|].
  destruct (trimEnd s) as [|b t] eqn:Ht.
  - destruct (is_space a); simpl.
    + split; [intros _; apply IH; reflexivity|reflexivity].
    + split; discriminate.
  - split; [discriminate|]. rewrite andb_true_iff. intros [_ Hs].
    apply IH in Hs. discriminate.
Qed.

Lemma trimStart_spaces s :
  every_char is_space (trimStart s) = true -> every_char is_space s = true.
Proof.
  induction s as [|a s IH]; simpl; [reflexivity|].
  destruct (is_space a) eqn:Ha; simpl; [exact IH|].
  rewrite Ha. discriminate.
Qed.

Lemma every_char_trimStart p s :
  every_char p s = true -> every_char p (trimStart s) = true.
Proof.
  induction s as [|a s IH]; simpl; [reflexivity|].
  rewrite andb_true_iff. intros [Ha Hs].
  destruct (is_space a); simpl; [auto|]. rewrite Ha, Hs. reflexivity.
Qed.

(** [s.trim()] is empty exactly when [s] is white space only. *)
Lemma trim_empty s : trim s = "" <-> every_char is_space s = true.
Proof.
  unfold trim. rewrite trimEnd_empty. split.
  - apply trimStart_spaces.
  - apply every_char_trimStart.
Qed.

Lemma truthy_trim s :
  negb (JS.truthy (trim s)) = every_char is_space s.
Proof.
  apply eq_true_iff_eq. rewrite <- trim_empty.
  destruct (trim s); simpl; split; (reflexivity || discriminate).
Qed.

Lemma required_and_bounded (s : string) (lo hi : Z) m1 m2 m3 :
  no_errors
    (push_if (length s >? hi)%Z m3
       (push_if (length s <? lo)%Z m2
          (push_if (negb (JS.truthy (trim s))) m1 []))) = true <->
  every_char is_space s = false /\ (lo <= length s <= hi)%Z.
Proof.
  rewrite !no_errors_push_if, truthy_trim. simpl no_errors.
  rewrite andb_true_r, !andb_true_iff, !negb_true_iff.
  rewrite Z.gtb_ltb, !Z.ltb_ge. tauto.
Qed.

(** X4. A product title, a product description and a search query are
    accepted exactly when they are not made of white space only and their
    length, counted before trimming, lies between the bounds (3 and 200,
    50 and 2000, 2 and 100), both included. *)
Theorem text_fields_accept_iff :
  (forall title,
      isValid (validateProductTitle title) = true <->
      every_char is_space title = false /\ (3 <= length title <= 200)%Z) /\
  (forall description,
      isValid (validateProductDescription description) = true <->
      every_char is_space description = false /\
      (50 <= length description <= 2000)%Z) /\
  (forall query,
      isValid (validateSearchQuery query) = true <->
      every_char is_space query = false /\ (2 <= length query <= 100)%Z).
Proof.
  repeat apply conj; intros s.
  - apply (required_and_bounded s 3 200).
  - apply (required_and_bounded s 50 2000).
  - apply (required_and_bounded s 2 100).
Qed.

End ValidatorFacts.

Section FormFacts.
Import Regex Validation.



Lemma length_trimStart s : (String.length (trimStart s) <= String.length s)%nat.
Proof.
  induction s as [|a s IH]; simpl; [lia|].
  destruct (is_space a); simpl; lia.
Qed.

Lemma length_trimEnd s : (String.length (trimEnd s) <= String.length s)%nat.
Proof.
  induction s as [|a s IH]; simpl; [lia|].
  destruct (trimEnd s); [destruct (is_space a)|]; simpl in *; lia.
Qed.

Lemma length_remove_angle_brackets s :
  (String.length (remove_angle_brackets s) <= String.length s)%nat.
Proof.
  induction s as [|a s IH]; simpl; [lia|].
  destruct (Ascii.eqb a "<" || Ascii.eqb a ">"); simpl; lia.
Qed.

Lemma remove_angle_brackets_clean s :
  some_char is_angle_bracket (remove_angle_brackets s) = false.
Proof.
  induction s as [|a s IH]; simpl; [reflexivity|].
  destruct (Ascii.eqb a "<" || Ascii.eqb a ">") eqn:Ha; simpl; [exact IH|].
  unfold is_angle_bracket at 1. rewrite Ha, IH. reflexivity.
Qed.

(** X6. [sanitizeInput] returns a string without [<] and [>] that is no
    longer than its input. The result is not always trimmed: removing a
    bracket can uncover white space, so sanitizing twice may differ from
    sanitizing once. *)
Theorem sanitizeInput_removes_brackets :
  (forall input,
      some_char is_angle_bracket (sanitizeInput input) = false /\
      (length (sanitizeInput input) <= length input)%Z) /\
  sanitizeInput "< a" = " a" /\
  sanitizeInput (sanitizeInput "< a") = "a".
Proof.
  split; [|split; reflexivity].
  intros input. unfold sanitizeInput. split.
  - apply remove_angle_brackets_clean.
  - unfold length, trim.
    pose proof (length_remove_angle_brackets (trimEnd (trimStart input))).
    pose proof (length_trimEnd (trimStart input)).
    pose proof (length_trimStart input). lia.
Qed.

(** A file is accepted exactly when its size does not exceed the
    maximum (10 MiB unless the options give another) and its type is one
    of the allowed types ([image/jpeg], [image/png], [image/gif] and
    [image/webp] unless the options give others). *)
Theorem validateFile_accepts_iff
    (formatFileSize : Z -> string) (file : File) (options : FileOptions) :
  isValid (validateFile formatFileSize file options) = true <->
  (size file <= default 10485760 (maxSize options))%Z /\
  In (type file)
     (default ["image/jpeg"; "image/png"; "image/gif"; "image/webp"]
        (allowedTypes options)).
Proof.
  unfold validateFile. cbv zeta. simpl isValid.
  rewrite !no_errors_push_if. simpl no_errors.
  rewrite andb_true_r, andb_true_iff, negb_involutive, negb_true_iff.
  rewrite Z.gtb_ltb, Z.ltb_ge, List.existsb_exists.
  change (10 * 1024 * 1024)%Z with 10485760%Z.
  split.
  - intros [(x & Hin & Heq) Hsize]. apply String.eqb_eq in Heq. subst x.
    auto.
  - intros [Hsize Hin]. split; [|exact Hsize].
    exists (type file). split; [exact Hin|apply String.eqb_refl].
Qed.

End FormFacts.

(* ===================================================================== *)
(** * The session over its lifetime                                       *)
(* ===================================================================== *)

Section SessionFacts.
Import JS Auth.

Lemma coherent_signed_in stringify data s :
  coherent (setUser stringify (user data) (storeTokens (tokens data) s)).
Proof. apply coherent_setUser. apply coherent_storeTokens. Qed.

Lemma coherent_login stringify fetch username password s :
  coherent s -> coherent (fst (login stringify fetch username password s)).
Proof.
  intros H. unfold login.
  destruct (fetch username password) as [e|[e|d]|[e|data]]; simpl;
    try assumption.
  apply coherent_signed_in.
Qed.

Lemma coherent_register stringify fetch userData s :
  coherent s -> coherent (fst (register stringify fetch userData s)).
Proof.
  intros H. unfold register.
  destruct (fetch userData) as [e|[e|d]|[e|data]]; simpl; try assumption.
  apply coherent_signed_in.
Qed.

Lemma coherent_googleLogin stringify fetch credential s :
  coherent s -> coherent (fst (googleLogin stringify fetch credential s)).
Proof.
  intros H. unfold googleLogin.
  destruct (fetch credential) as [e|[e|d]|[e|data]]; simpl; try assumption.
  apply coherent_signed_in.
Qed.

Lemma reachable_coherent stringify parse s :
  reachable stringify parse s -> coherent s.
Proof.
  induction 1.
  - apply coherent_getInstance.
  - apply coherent_login; assumption.
  - apply coherent_register; assumption.
  - apply coherent_googleLogin; assumption.
  - apply coherent_refreshAccessToken; assumption.
  - apply coherent_logout.
  - apply coherent_setUser; assumption.
  - apply coherent_getUser; assumption.
Qed.

Lemma getRefreshToken_Some_iff s token :
  getRefreshToken s = Some token <->
  exists t, svc_tokens s = Some t /\ refresh t = token /\ token <> "".
Proof.
  unfold getRefreshToken, or_null. split.
  - destruct (svc_tokens s) as [t|]; simpl; [|discriminate].
    destruct (refresh t) eqn:Hr; simpl; [discriminate|].
    intros [= <-]. exists t. repeat split; auto; discriminate.
  - intros (t & -> & <- & Hne). simpl.
    destruct (refresh t); simpl; [contradiction|reflexivity].
Qed.

(** X7. In every state the service can reach through its public methods,
    whatever the network answers, the tokens the getters return are the
    ones written in [localStorage]. *)
Theorem getters_agree_with_storage
    (JSON_stringify : User -> string) (JSON_parse : string -> option User)
    (s : State) :
  reachable JSON_stringify JSON_parse s ->
  (forall token, getAccessToken s = Some token ->
                 localStorage s !! "access_token" = Some token) /\
  (forall token, getRefreshToken s = Some token ->
                 localStorage s !! "refresh_token" = Some token).
Proof.
  intros Hreach. pose proof (reachable_coherent _ _ _ Hreach) as Hco.
  split; intros token Htok.
  - apply getAccessToken_Some in Htok. destruct Htok as (t & Ht & <- & _).
    apply (Hco t Ht).
  - apply getRefreshToken_Some_iff in Htok.
    destruct Htok as (t & Ht & <- & _). apply (Hco t Ht).
Qed.

Lemma getters_agree_with_storage_witness :
  localStorage
    (fst (login write_user (fun _ _ => Ok (inr login_successful))
            "testuser" "password" (getInstance ∅)))
    !! "access_token" = Some "access_token" /\
  localStorage
    (fst (login write_user (fun _ _ => Ok (inr login_successful))
            "testuser" "password" (getInstance ∅)))
    !! "refresh_token" = Some "refresh_token".
Proof.
  destruct (getters_agree_with_storage write_user read_user
              (fst (login write_user (fun _ _ => Ok (inr login_successful))
                      "testuser" "password" (getInstance ∅))))
    as [Haccess Hrefresh].
  - apply reach_login. apply reach_getInstance.
  - split; [apply Haccess|apply Hrefresh]; reflexivity.
Defined.

(** X8. A sign-in that fails, for whatever reason (network failure, a
    response that is not ok, a body that is not JSON), leaves the service
    and [localStorage] exactly as they were: a session that was open stays
    open. *)
Theorem failed_sign_in_changes_nothing
    (JSON_stringify : User -> string) (s : State) :
  (forall fetch username password e,
      snd (login JSON_stringify fetch username password s) = Throw e ->
      fst (login JSON_stringify fetch username password s) = s) /\
  (forall fetch userData e,
      snd (register JSON_stringify fetch userData s) = Throw e ->
      fst (register JSON_stringify fetch userData s) = s) /\
  (forall fetch credential e,
      snd (googleLogin JSON_stringify fetch credential s) = Throw e ->
      fst (googleLogin JSON_stringify fetch credential s) = s).
Proof.
  repeat apply conj.
  - intros fetch username password e. unfold login.
    destruct (fetch username password) as [x|[x|d]|[x|data]]; simpl;
      (reflexivity || discriminate).
  - intros fetch userData e. unfold register.
    destruct (fetch userData) as [x|[x|d]|[x|data]]; simpl;
      (reflexivity || discriminate).
  - intros fetch credential e. unfold googleLogin.
    destruct (fetch credential) as [x|[x|d]|[x|data]]; simpl;
      (reflexivity || discriminate).
Qed.

Lemma failed_sign_in_changes_nothing_witness :
  fst (login username (fun _ _ => NotOk (inr {| detail := None; error := None |}))
         "testuser" "wrongpassword" signed_in) = signed_in /\
  fst (googleLogin username (fun _ => NetworkError (Error "Failed to fetch"))
         "credential" signed_in) = signed_in.
Proof.
  destruct (failed_sign_in_changes_nothing username signed_in)
    as (Hlogin & _ & Hgoogle).
  split.
  - apply (Hlogin _ "testuser" "wrongpassword" (Error "Login failed")).
    reflexivity.
  - apply (Hgoogle _ "credential" (Error "Failed to fetch")). reflexivity.
Defined.

Lemma getItem_signed_in stringify data s :
  let s' := setUser stringify (user data) (storeTokens (tokens data) s) in
  localStorage s' !! "access_token" = Some (access (tokens data)) /\
  localStorage s' !! "refresh_token" = Some (refresh (tokens data)) /\
  localStorage s' !! "user" = Some (stringify (user data)).
Proof.
  simpl. repeat apply conj.
  - rewrite !lookup_insert_ne by discriminate. apply lookup_insert_eq.
  - rewrite lookup_insert_ne by discriminate. apply lookup_insert_eq.
  - apply lookup_insert_eq.
Qed.

Lemma login_Return stringify fetch username password s s' data :
  login stringify fetch username password s = (s', Return data) ->
  s' = setUser stringify (user data) (storeTokens (tokens data) s).
Proof.
  unfold login.
  destruct (fetch username password) as [x|[x|d]|[x|data']];
    try discriminate.
  intros [= <- <-]. reflexivity.
Qed.

Lemma truthy_ne s : truthy s = true <-> s <> "".
Proof. destruct s; simpl; split; (congruence || discriminate). Qed.

(** X9. After a successful [login] the service answers from memory:
    [getUser()] gives the user of the response without reading
    [localStorage], the three storage keys hold the two tokens and the
    user text, and [isAuthenticated()] tells whether the access token of
    the response is non-empty: a response with an empty access token signs
    nobody in. *)
Theorem login_then_getters
    (JSON_stringify : User -> string) (JSON_parse : string -> option User)
    (fetch : string -> string -> Reply AuthResponse)
    (username password : string) (s s' : State) (data : AuthResponse) :
  login JSON_stringify fetch username password s = (s', Return data) ->
  getUser JSON_parse s' = (s', Some (user data)) /\
  localStorage s' !! "access_token" = Some (access (tokens data)) /\
  localStorage s' !! "refresh_token" = Some (refresh (tokens data)) /\
  localStorage s' !! "user" = Some (JSON_stringify (user data)) /\
  isAuthenticated s' = truthy (access (tokens data)) /\
  (access (tokens data) <> "" ->
   getAccessToken s' = Some (access (tokens data)) /\
   getAuthHeader s' =
     {[ "Authorization" := "Bearer " +:+ access (tokens data) ]}) /\
  (access (tokens data) = "" ->
   getAccessToken s' = None /\ getAuthHeader s' = ∅).
Proof.
  intros Hlogin. apply login_Return in Hlogin. subst s'.
  destruct (getItem_signed_in JSON_stringify data s) as (Ha & Hr & Hu).
  split; [reflexivity|]. split; [exact Ha|]. split; [exact Hr|].
  split; [exact Hu|]. split; [reflexivity|].
  unfold getAuthHeader, getAccessToken, or_null. simpl. split.
  - intros Hne. apply truthy_ne in Hne. rewrite Hne. auto.
  - intros ->. auto.
Qed.

Lemma login_then_getters_witness :
  getUser read_user
    (fst (login write_user (fun _ _ => Ok (inr login_successful))
            "testuser" "password" (getInstance ∅)))
  = (fst (login write_user (fun _ _ => Ok (inr login_successful))
            "testuser" "password" (getInstance ∅)), Some test_user) /\
  getAccessToken
    (fst (login write_user (fun _ _ => Ok (inr login_successful))
            "testuser" "password" (getInstance ∅)))
  = Some "access_token".
Proof.
  destruct (login_then_getters write_user read_user
              (fun _ _ => Ok (inr login_successful))
              "testuser" "password" (getInstance ∅)
              (fst (login write_user (fun _ _ => Ok (inr login_successful))
                      "testuser" "password" (getInstance ∅)))
              login_successful eq_refl)
    as (Huser & _ & _ & _ & _ & Htoken & _).
  split; [exact Huser|]. apply Htoken. discriminate.
Defined.

Lemma getInstance_tokens ls a r :
  ls !! "access_token" = Some a ->
  ls !! "refresh_token" = Some r ->
  svc_tokens (getInstance ls) =
    if truthy a && truthy r then Some {| access := a; refresh := r |}
    else None.
Proof.
  intros Ha Hr. unfold getInstance, loadTokensFromStorage, getItem. simpl.
  rewrite Ha, Hr. destruct (truthy a && truthy r); reflexivity.
Qed.

(** X10. Signing in and reloading the page. When both tokens of the
    response are non-empty, the new service instance holds the same tokens
    and is authenticated; its [getUser()] gives what [JSON.parse] reads
    from what [JSON.stringify] wrote, so the user is back whenever the two
    agree on it. When one of the tokens is empty, the new instance holds
    no tokens at all. *)
Theorem session_survives_reload
    (JSON_stringify : User -> string) (JSON_parse : string -> option User)
    (fetch : string -> string -> Reply AuthResponse)
    (username password : string) (s s' : State) (data : AuthResponse) :
  login JSON_stringify fetch username password s = (s', Return data) ->
  (access (tokens data) <> "" -> refresh (tokens data) <> "" ->
   svc_tokens (reload s') = Some (tokens data) /\
   isAuthenticated (reload s') = true /\
   (JSON_stringify (user data) <> "" ->
    snd (getUser JSON_parse (reload s'))
      = JSON_parse (JSON_stringify (user data)))) /\
  (access (tokens data) = "" \/ refresh (tokens data) = "" ->
   svc_tokens (reload s') = None /\ isAuthenticated (reload s') = false).
Proof.
  intros Hlogin. apply login_Return in Hlogin. subst s'.
  destruct (getItem_signed_in JSON_stringify data s) as (Ha & Hr & Hu).
  cbv zeta in Ha, Hr, Hu. unfold reload.
  remember (localStorage
              (setUser JSON_stringify (user data)
                 (storeTokens (tokens data) s))) as ls' eqn:Hls'.
  clear Hls'.
  pose proof (getInstance_tokens _ _ _ Ha Hr) as Htok.
  assert (Hls : localStorage (getInstance ls') = ls').
  { unfold getInstance, loadTokensFromStorage, getItem. simpl.
    rewrite Ha, Hr.
    destruct (truthy (access (tokens data)) &&
              truthy (refresh (tokens data))); reflexivity. }
  assert (Huser : svc_user (getInstance ls') = None).
  { unfold getInstance, loadTokensFromStorage, getItem. simpl.
    rewrite Ha, Hr.
    destruct (truthy (access (tokens data)) &&
              truthy (refresh (tokens data))); reflexivity. }
  split.
  - intros Hane Hrne. apply truthy_ne in Hane. apply truthy_ne in Hrne.
    rewrite Hane, Hrne in Htok. simpl in Htok.
    assert (Htokens : svc_tokens (getInstance ls') = Some (tokens data)).
    { rewrite Htok. destruct (tokens data); reflexivity. }
    split; [exact Htokens|]. split.
    + unfold isAuthenticated. rewrite Htokens. simpl. exact Hane.
    + intros Hune. apply truthy_ne in Hune.
      unfold getUser, getItem. rewrite Huser, Hls, Hu, Hune. reflexivity.
  - intros Hempty.
    assert (Hf : truthy (access (tokens data)) &&
                 truthy (refresh (tokens data)) = false).
    { destruct Hempty as [-> | ->]; simpl;
        [reflexivity|apply andb_false_r]. }
    rewrite Hf in Htok. split; [exact Htok|].
    unfold isAuthenticated. rewrite Htok. reflexivity.
Qed.

Lemma session_survives_reload_witness :
  svc_tokens
    (reload (fst (login write_user (fun _ _ => Ok (inr login_successful))
                    "testuser" "password" (getInstance ∅))))
  = Some {| access := "access_token"; refresh := "refresh_token" |} /\
  snd (getUser read_user
         (reload (fst (login write_user
                         (fun _ _ => Ok (inr login_successful))
                         "testuser" "password" (getInstance ∅)))))
  = Some test_user.
Proof.
  destruct (session_survives_reload write_user read_user
              (fun _ _ => Ok (inr login_successful))
              "testuser" "password" (getInstance ∅)
              (fst (login write_user (fun _ _ => Ok (inr login_successful))
                      "testuser" "password" (getInstance ∅)))
              login_successful eq_refl) as [Hkept _].
  destruct Hkept as (Htokens & _ & Huser); [discriminate|discriminate|].
  split; [exact Htokens|]. apply Huser. discriminate.
Defined.

(** X11. Logging out survives a reload: the service instance built from
    the [localStorage] that [logout] leaves behind holds no tokens, is not
    authenticated and knows no user. *)
Theorem logout_survives_reload
    (JSON_parse : string -> option User) (s : State) :
  svc_tokens (reload (logout s)) = None /\
  getAccessToken (reload (logout s)) = None /\
  getRefreshToken (reload (logout s)) = None /\
  isAuthenticated (reload (logout s)) = false /\
  snd (getUser JSON_parse (reload (logout s))) = None.
Proof.
  destruct (logout_clears s) as (_ & _ & Ha & Hr & Hu & _).
  assert (Hreload : reload (logout s) =
            {| svc_tokens := None; svc_user := None;
               localStorage := localStorage (logout s) |}).
  { unfold reload, getInstance, loadTokensFromStorage, getItem.
    cbn [localStorage]. rewrite Ha. reflexivity. }
  rewrite Hreload. repeat apply conj; try reflexivity.
  unfold getUser, getItem. cbn [svc_user localStorage]. rewrite Hu.
  reflexivity.
Qed.

(** A second [getUser()] answers as the first, and the tokens stay. *)
Lemma getUser_again (JSON_parse : string -> option User) (s : State) :
  svc_tokens (fst (getUser JSON_parse s)) = svc_tokens s /\
  snd (getUser JSON_parse (fst (getUser JSON_parse s)))
    = snd (getUser JSON_parse s).
Proof.
  unfold getUser, getItem.
  destruct (svc_user s) as [u|] eqn:Hu; simpl; [rewrite Hu; auto|].
  destruct (localStorage s !! "user") as [userStr|] eqn:Hls; simpl;
    [|rewrite Hu, Hls; auto].
  destruct (truthy userStr) eqn:Ht; simpl; [|rewrite Hu, Hls, Ht; auto].
  destruct (JSON_parse userStr) as [u|] eqn:Hp; simpl; [auto|].
  rewrite Hls, Ht, Hp. auto.
Qed.

(** X12. [getUser()] is a cache: it never writes [localStorage] and never
    touches the tokens, and calling it again gives the same answer and
    leaves the service as the first call left it. *)
Theorem getUser_caches (JSON_parse : string -> option User) (s : State) :
  localStorage (fst (getUser JSON_parse s)) = localStorage s /\
  svc_tokens (fst (getUser JSON_parse s)) = svc_tokens s /\
  getUser JSON_parse (fst (getUser JSON_parse s)) = getUser JSON_parse s.
Proof.
  unfold getUser, getItem.
  destruct s as [t [u|] ls]; simpl; [auto|].
  destruct (ls !! "user") as [userStr|] eqn:Hls; simpl; [|rewrite Hls; auto].
  destruct (truthy userStr) eqn:Ht; simpl.
  - destruct (JSON_parse userStr) as [u|] eqn:Hp; simpl; [auto|].
    rewrite Hls, Ht, Hp. auto.
  - rewrite Hls, Ht. auto.
Qed.

End SessionFacts.

(* ===================================================================== *)
(** * A call of the client from start to end                              *)
(* ===================================================================== *)

Section ClientFacts.
Import JS Api.

Lemma session_kept_refl w : session_kept w w.
Proof. unfold session_kept. auto. Qed.

Lemma session_kept_tick w : session_kept w (tick w).
Proof. unfold session_kept. auto. Qed.

Lemma session_kept_trans w1 w2 w3 :
  session_kept w1 w2 -> session_kept w2 w3 -> session_kept w1 w3.
Proof.
  unfold session_kept. intros (H1 & H2 & H3) (H4 & H5 & H6).
  repeat split; congruence.
Qed.

Lemma session_kept_refreshed fetch w s :
  Auth.refreshAccessToken fetch (auth w) = (s, true) ->
  session_kept w (tick (set_auth s w)).
Proof.
  intros Href. destruct (refreshAccessToken_true _ _ _ Href)
    as (r & d & Hr & _ & ->).
  unfold session_kept. simpl. repeat split.
  rewrite Hr. apply getRefreshToken_storeTokens. exact Hr.
Qed.

(** Every round of 401 and refresh takes time: a call made at most [fuel]
    ticks before the network calms down settles within [S fuel] sends. *)
Lemma api_settles net t0 :
  calms_down net t0 ->
  forall fuel w config,
    (t0 <= clock w + fuel)%nat ->
    exists run, api (S fuel) net w config = Some run.
Proof.
  intros Hcalm. induction fuel as [|fuel IH]; intros w config Hfuel;
    rewrite api_step; cbv zeta;
    destruct (server net (clock w) _) as [r|msg r] eqn:Hans;
    try (eexists; reflexivity);
    unfold response_interceptor_rejected;
    destruct (status_is_401 _) eqn:H401;
    try (eexists; reflexivity);
    destruct (Auth.refreshAccessToken _ _) as [s refreshed] eqn:Href;
    destruct refreshed;
    try (eexists; reflexivity).
  - (* no fuel left for a retry: the network has calmed down already *)
    exfalso. destruct Hcalm as [Hserver|Hrefresh].
    + specialize (Hserver (clock w)
                    (request_interceptor (auth w) config)).
      rewrite Hans in Hserver. unfold status_is_401 in H401.
      simpl in H401, Hserver. destruct r as [resp|]; [|discriminate].
      rewrite Hserver in H401 by lia. discriminate.
    + apply refreshAccessToken_true in Href.
      destruct Href as (rt & d & _ & Hok & _).
      apply (Hrefresh (clock (tick w)) rt d); [simpl; lia|exact Hok].
  - destruct (Nat.le_gt_cases t0 (clock w)) as [Hlate|Hearly].
    + exfalso. destruct Hcalm as [Hserver|Hrefresh].
      * specialize (Hserver (clock w)
                      (request_interceptor (auth w) config)).
        rewrite Hans in Hserver. unfold status_is_401 in H401.
        simpl in H401, Hserver. destruct r as [resp|]; [|discriminate].
        rewrite Hserver in H401 by lia. discriminate.
      * apply refreshAccessToken_true in Href.
        destruct Href as (rt & d & _ & Hok & _).
        apply (Hrefresh (clock (tick w)) rt d); [simpl; lia|exact Hok].
    + match goal with
      | |- context [api (S fuel) net ?w1 ?c1] =>
          destruct (IH w1 c1) as [run' Hrun']; [simpl; lia|]
      end.
      rewrite Hrun'. eexists. reflexivity.
Qed.

(** X14. How a call of the client ends.  It settles once the network calms
    down: if from time [t0] on the API answers no 401, or from time [t0] on
    the refresh endpoint grants no token, then a call made at time [t]
    settles within [t0 - t + 1] requests.  And however many refreshes a
    call went through, when it settles it ends in one of two ways: when it
    is fulfilled, or rejected with an error that is not a 401, the browser
    is on the page it was on, with the refresh token and the user it had;
    when it is rejected with a 401, every stored credential is cleared and
    [window.location.href] is [/login]. *)
Theorem call_ends_signed_in_or_logged_out
    (net : Network) (w : Browser) (config : RequestConfig) :
  (forall t0,
      calms_down net t0 ->
      exists run, api (S (t0 - clock w)) net w config = Some run) /\
  (forall fuel run,
      api fuel net w config = Some run ->
      match result run with
      | Fulfilled _ => session_kept w (final run)
      | Rejected e =>
          if status_is_401 e
          then credentials_cleared (auth (final run)) /\
               location_href (final run) = "/login"
          else session_kept w (final run)
      end).
Proof.
  split.
  { intros t0 Hcalm. apply (api_settles net t0 Hcalm). lia. }
  intros fuel.
  revert w config. induction fuel as [|fuel IH]; [discriminate|].
  intros w config run. rewrite api_step. cbv zeta.
  destruct (server net (clock w) _) as [r|msg r] eqn:Hans.
  - intros [= <-]. simpl. apply session_kept_tick.
  - unfold response_interceptor_rejected.
    destruct (status_is_401 _) eqn:H401.
    + destruct (Auth.refreshAccessToken _ _) as [s refreshed] eqn:Href.
      destruct refreshed.
      * destruct (api fuel net _ _) as [run'|] eqn:Hrec; [|discriminate].
        intros [= <-]. simpl. pose proof (IH _ _ _ Hrec) as Hrun'.
        pose proof (session_kept_refreshed _ (tick w) s Href) as Hkept.
        assert (Hw : session_kept w (tick (set_auth s (tick w)))).
        { apply (session_kept_trans _ (tick w)); [apply session_kept_tick|].
          exact Hkept. }
        destruct (result run') as [resp|e]; simpl.
        -- apply (session_kept_trans _ _ _ Hw Hrun').
        -- destruct (status_is_401 e); [exact Hrun'|].
           apply (session_kept_trans _ _ _ Hw Hrun').
      * intros [= <-]. simpl. rewrite H401. split; [|reflexivity].
        apply logout_cleared.
    + intros [= <-]. simpl. rewrite H401. apply session_kept_tick.
Qed.

Lemma call_ends_signed_in_or_logged_out_witness :
  exists run,
    api 5 slow_to_accept home_page list_products = Some run /\
    match result run with
    | Fulfilled _ => session_kept home_page (final run)
    | Rejected e =>
        if status_is_401 e
        then credentials_cleared (auth (final run)) /\
             location_href (final run) = "/login"
        else session_kept home_page (final run)
    end.
Proof.
  destruct (call_ends_signed_in_or_logged_out slow_to_accept home_page
              list_products) as [Hsettles Hends].
  destruct (Hsettles 4%nat) as [run Hrun].
  { left. intros t c Ht. simpl.
    destruct (Nat.ltb_spec t 4); [lia|reflexivity]. }
  exists run. split; [exact Hrun|].
  apply (Hends 5%nat run). exact Hrun.
Defined.

Lemma same_request_refl config : same_request config config.
Proof. unfold same_request. auto. Qed.

Lemma same_request_trans c1 c2 c3 :
  same_request c1 c2 -> same_request c2 c3 -> same_request c1 c3.
Proof.
  unfold same_request. intros (H1 & H2 & H3 & H4 & H5) (G1 & G2 & G3 & G4 & G5).
  repeat split; try congruence. intros k Hk. rewrite G5, H5; auto.
Qed.

Lemma same_request_set_header v config :
  same_request config (set_header "Authorization" v config).
Proof.
  unfold same_request, set_header. simpl. repeat split.
  intros k Hk. apply lookup_insert_ne. congruence.
Qed.

Lemma same_request_interceptor s config :
  same_request config (request_interceptor s config).
Proof.
  unfold request_interceptor. destruct (Auth.getAccessToken s).
  - apply same_request_set_header.
  - apply same_request_refl.
Qed.

Lemma sent_requests_app es1 es2 :
  sent_requests (es1 ++ es2)%list =
  (sent_requests es1 ++ sent_requests es2)%list.
Proof. apply List.flat_map_app. Qed.

(** X15. Every request the client sends during one call, the first and
    each one sent again after a refresh, is the request of the caller but
    for its [Authorization] header: same method, same URL, same parameters,
    same body, same other headers. *)
Theorem resent_request_is_the_original
    (fuel : nat) (net : Network) (w : Browser) (config : RequestConfig)
    (run : Run AxiosResponse) :
  api fuel net w config = Some run ->
  List.Forall (same_request config) (sent_requests (events run)).
Proof.
  revert w config run. induction fuel as [|fuel IH]; [discriminate|].
  intros w config run. rewrite api_step. cbv zeta.
  pose proof (same_request_interceptor (auth w) config) as Hfirst.
  destruct (server net (clock w) _) as [r|msg r] eqn:Hans.
  - intros [= <-]. simpl. constructor; [exact Hfirst|constructor].
  - unfold response_interceptor_rejected.
    destruct (status_is_401 _) eqn:H401.
    + destruct (Auth.refreshAccessToken _ _) as [s refreshed] eqn:Href.
      destruct refreshed.
      * destruct (api fuel net _ _) as [run'|] eqn:Hrec; [|discriminate].
        intros [= <-]. simpl. constructor; [exact Hfirst|].
        pose proof (IH _ _ _ Hrec) as Hrest.
        eapply List.Forall_impl; [|exact Hrest].
        intros c Hc. eapply same_request_trans; [|exact Hc].
        eapply same_request_trans; [exact Hfirst|].
        apply same_request_set_header.
      * intros [= <-]. simpl. constructor; [exact Hfirst|constructor].
    + intros [= <-]. simpl. constructor; [exact Hfirst|constructor].
Qed.

Lemma resent_request_is_the_original_witness :
  exists run,
    api 3 slow_to_accept home_page list_products = Some run /\
    List.Forall (same_request list_products) (sent_requests (events run)).
Proof.
  eexists. split; [reflexivity|].
  apply (resent_request_is_the_original 3 slow_to_accept home_page
           list_products).
  reflexivity.
Defined.

Lemma set_header_twice k v config :
  set_header k v (set_header k v config) = set_header k v config.
Proof.
  unfold set_header. simpl. f_equal. apply insert_insert_eq.
Qed.

(** X13. A call whose first answer is a 401, while a refresh token is
    stored, the refresh endpoint grants a non-empty access token and the
    request is then served: the caller gets the response of the second
    request, which carried the new token; the new access token is stored
    beside the old refresh token; and the browser stays on its page. The
    client sent two requests and refreshed once. *)
Theorem one_401_is_recovered
    (fuel : nat) (net : Network) (w : Browser) (config : RequestConfig)
    (msg : string) (resp ok : AxiosResponse) (r : string)
    (d : Auth.RefreshData) :
  let first := request_interceptor (auth w) config in
  let second :=
    set_header "Authorization" ("Bearer " +:+ Auth.new_access d) first in
  server net (clock w) first = Fails msg (Some resp) ->
  status resp = 401%Z ->
  Auth.getRefreshToken (auth w) = Some r ->
  refresh_endpoint net (S (clock w)) r = Auth.Ok (inr d) ->
  Auth.new_access d <> "" ->
  server net (S (S (clock w))) second = Resolves ok ->
  exists run,
    api (S (S fuel)) net w config = Some run /\
    result run = Fulfilled ok /\
    events run =
      [Sent first; Answered (Fails msg (Some resp)); Refresh true;
       Sent second; Answered (Resolves ok)] /\
    auth (final run) =
      Auth.storeTokens
        {| Auth.access := Auth.new_access d; Auth.refresh := r |} (auth w) /\
    location_href (final run) = location_href w.
Proof.
  intros first second Hans H401 Hr Hgrant Hne Hok.
  rewrite api_step. cbv zeta. fold first. rewrite Hans.
  assert (Href : Auth.refreshAccessToken
                   (refresh_endpoint net (clock (tick w))) (auth (tick w))
                 = (Auth.storeTokens
                      {| Auth.access := Auth.new_access d;
                         Auth.refresh := r |} (auth w), true)).
  { unfold Auth.refreshAccessToken. simpl. rewrite Hr, Hgrant. reflexivity. }
  assert (Hstatus : status_is_401
                      {| err_message := msg; response := Some resp;
                         config := first |} = true).
  { unfold status_is_401. simpl. apply Z.eqb_eq. exact H401. }
  rewrite (response_interceptor_retries _ _ _ _ _ Hstatus Href).
  assert (Htoken : Auth.getAccessToken
                     (Auth.storeTokens
                        {| Auth.access := Auth.new_access d;
                           Auth.refresh := r |} (auth w))
                   = Some (Auth.new_access d)).
  { apply getAccessToken_Some. eexists. repeat split. exact Hne. }
  assert (Hsecond : request_interceptor
                      (Auth.storeTokens
                         {| Auth.access := Auth.new_access d;
                            Auth.refresh := r |} (auth w)) second = second).
  { unfold request_interceptor. rewrite Htoken. apply set_header_twice. }
  rewrite api_step. cbv zeta.
  cbn [Api.config Api.auth Api.clock Api.tick Api.set_auth].
  rewrite Htoken. cbn [template]. fold second. rewrite !Hsecond, Hok.
  eexists. split; [reflexivity|]. simpl. auto.
Qed.

Lemma one_401_is_recovered_witness :
  exists run,
    api 2 expired_once home_page list_products = Some run /\
    result run = Fulfilled {| status := 200; body := "[]" |} /\
    count is_sent (events run) = 2%nat /\
    count is_refresh (events run) = 1%nat /\
    Auth.getAccessToken (auth (final run)) = Some "fresh-access" /\
    Auth.getRefreshToken (auth (final run)) = Some "refresh-1" /\
    location_href (final run) = "/".
Proof.
  destruct (one_401_is_recovered 0 expired_once home_page list_products
              "Request failed with status code 401"
              {| status := 401; body := "detail: Given token not valid" |}
              {| status := 200; body := "[]" |}
              "refresh-1" {| Auth.new_access := "fresh-access" |})
    as (run & Hrun & Hres & Hev & Hauth & Hloc);
    [reflexivity|reflexivity|reflexivity|reflexivity|discriminate
    |reflexivity|].
  exists run. split; [exact Hrun|]. split; [exact Hres|].
  rewrite Hev, Hauth, Hloc. repeat split.
Defined.

End ClientFacts.

(* ===================================================================== *)
(** * The hooks                                                           *)
(* ===================================================================== *)

Section HookFacts.
Import UseProducts.

Lemma commented_same_but_comments c p : same_but_comments p (commented c p).
Proof. unfold same_but_comments, commented; simpl. tauto. Qed.

Lemma comment_updater_lookup productId c prev (i : nat) :
  comment_updater productId c prev !! i =
  (fun p => if (id p =? productId)%Z then commented c p else p) <$> prev !! i.
Proof.
  revert i. induction prev as [|p prev IH]; intros [|i]; simpl;
    solve [reflexivity | apply IH].
Qed.

(** X16. A successful [commentProduct(productId, content)] returns the
    new comment, keeps the length of the product list and every product
    with another id, and in a product with that id appends the comment at
    the end of its comments (starting a list when it had none), keeps every
    field other than [comments] and [comment_count], and sets
    [comment_count] to the sum of the count and 1 as JavaScript numbers:
    one more when the count is a safe integer (magnitude below 2^53).  So
    a product whose count equalled the number of its comments, fewer than
    2^53, still has that property. *)
Theorem commentProduct_frame
    (newComment : string) (productId : Z) (products : list Product) :
  exists products',
    commentProduct (Api.Fulfilled newComment) productId products
      = (products', Api.Fulfilled newComment) /\
    List.length products' = List.length products /\
    (forall (i : nat) p,
        products !! i = Some p -> id p <> productId ->
        products' !! i = Some p) /\
    (forall (i : nat) p,
        products !! i = Some p -> id p = productId ->
        exists q,
          products' !! i = Some q /\
          comments q =
            Some (match comments p with Some cs => cs | None => [] end
                  ++ [newComment])%list /\
          comment_count q = JS.number_add (comment_count p) 1 /\
          same_but_comments p q /\
          (JS.safe_integer (comment_count p) ->
           comment_count q = comment_count p + 1) /\
          (forall cs, comments p = Some cs ->
                      comment_count p = Z.of_nat (List.length cs) ->
                      Z.of_nat (List.length cs) < 2 ^ 53 ->
                      exists cs', comments q = Some cs' /\
                        comment_count q = Z.of_nat (List.length cs'))).
Proof.
  exists (comment_updater productId newComment products).
  split; [reflexivity|].
  split; [unfold comment_updater; apply List.length_map|]. split.
  - intros i p Hi Hne. rewrite comment_updater_lookup, Hi; simpl.
    destruct (Z.eqb_spec (id p) productId); [contradiction|reflexivity].
  - intros i p Hi Heq. exists (commented newComment p).
    rewrite comment_updater_lookup, Hi; simpl.
    destruct (Z.eqb_spec (id p) productId); [|contradiction].
    split; [reflexivity|]. split; [reflexivity|]. split; [reflexivity|].
    split; [apply commented_same_but_comments|]. split.
    + intros Hsafe. apply number_add_safe. exact Hsafe.
    + intros cs Hcs Hcount Hbound. rewrite Hcs. eexists.
      split; [reflexivity|].
      rewrite List.length_app, Hcount. simpl.
      rewrite number_add_count by lia. lia.
Qed.

Lemma commentProduct_frame_witness :
  exists products',
    commentProduct (Api.Fulfilled "Nice") 2 sample_products
      = (products', Api.Fulfilled "Nice") /\
    products' !! 0%nat = Some (sample_product 1 5 false) /\
    exists q,
      products' !! 1%nat = Some q /\
      comments q = Some ["Nice"] /\
      comment_count q = 1.
Proof.
  destruct (commentProduct_frame "Nice" 2 sample_products)
    as (products' & Hrun & _ & Hother & Htarget).
  exists products'. split; [exact Hrun|]. split.
  - apply (Hother 0%nat (sample_product 1 5 false)); [reflexivity|].
    simpl. lia.
  - destruct (Htarget 1%nat (sample_product 2 7 true) eq_refl eq_refl)
      as (q & Hq & Hcs & _ & _ & Hcount & _).
    exists q. split; [exact Hq|]. split; [exact Hcs|].
    apply Hcount. unfold JS.safe_integer; simpl. split; reflexivity.
Defined.

Lemma upvote_updater_twice productId prev :
  (forall p, In p prev -> id p = productId ->
             JS.safe_integer (upvote_count p)) ->
  upvote_updater productId (upvote_updater productId prev) = prev.
Proof.
  induction prev as [|p prev IH]; simpl; intros Hsafe; [reflexivity|].
  f_equal; [|apply IH; intros q Hq; apply Hsafe; auto].
  destruct (Z.eqb_spec (id p) productId) as [Heq|Hne].
  - change (id (toggled p)) with (id p).
    destruct (Z.eqb_spec (id p) productId); [|contradiction].
    apply toggled_involutive. apply Hsafe; auto.
  - destruct (Z.eqb_spec (id p) productId); [contradiction|reflexivity].
Qed.

(** X17. Upvoting the same product twice, both calls succeeding, gives
    back the product list as it was, flags and counts restored, when the
    count of every product with that id is a safe integer (magnitude below
    2^53). *)
Theorem upvote_twice_restores
    (body1 body2 : string) (productId : Z) (products : list Product) :
  (forall p, In p products -> id p = productId ->
             JS.safe_integer (upvote_count p)) ->
  upvoteProduct (Api.Fulfilled body2) productId
    (fst (upvoteProduct (Api.Fulfilled body1) productId products))
  = (products, Api.Fulfilled tt).
Proof. intros Hsafe. simpl. rewrite upvote_updater_twice; auto. Qed.

Lemma upvote_twice_restores_witness :
  upvoteProduct (Api.Fulfilled "ok") 2
    (fst (upvoteProduct (Api.Fulfilled "ok") 2 sample_products))
  = (sample_products, Api.Fulfilled tt).
Proof.
  apply (upvote_twice_restores "ok" "ok" 2 sample_products).
  intros p [<-|[<-|[<-|[]]]] _; unfold JS.safe_integer; simpl;
    split; reflexivity.
Defined.

(** Beyond the safe integers two upvotes need not cancel: from 2^53 the
    first leaves the count at 2^53 and the second takes 1 off. *)
Example upvote_twice_at_2_53 :
  upvoteProduct (Api.Fulfilled "ok") 1
    (fst (upvoteProduct (Api.Fulfilled "ok") 1
            [sample_product 1 (2 ^ 53) false]))
  = ([sample_product 1 (2 ^ 53 - 1) false], Api.Fulfilled tt).
Proof. reflexivity. Qed.

Lemma commented_toggled c p :
  commented c (toggled p) = toggled (commented c p).
Proof. reflexivity. Qed.

(** X18. Upvotes and comments do not interfere: whatever the two product
    ids, and also when they are the same, recording an upvote and then a
    comment gives the same list as recording the comment and then the
    upvote. *)
Theorem upvote_and_comment_commute
    (upvoted commentedId : Z) (newComment : string)
    (products : list Product) :
  comment_updater commentedId newComment (upvote_updater upvoted products)
  = upvote_updater upvoted
      (comment_updater commentedId newComment products).
Proof.
  induction products as [|p products IH]; simpl; [reflexivity|].
  f_equal; [|exact IH].
  destruct (Z.eqb_spec (id p) upvoted), (Z.eqb_spec (id p) commentedId);
    simpl;
    repeat match goal with
           | |- context [Z.eqb (id ?x) ?y] =>
               destruct (Z.eqb_spec (id x) y); try contradiction
           end;
    reflexivity.
Qed.

End HookFacts.

Section AuthHookFacts.
Import JS Api.

Lemma set_auth_same w : set_auth (auth w) w = w.
Proof. destruct w. reflexivity. Qed.

Lemma getUser_logged_out parse s :
  Auth.getUser parse (Auth.logout s) = (Auth.logout s, None).
Proof.
  unfold Auth.getUser, Auth.getItem.
  destruct (logout_clears s) as (_ & -> & _ & _ & -> & _). reflexivity.
Qed.

(** X19. The [useAuth] hook and the service. After the mount effect and
    after the hook's [logout], the hook shows what the service knows. A
    [login] through the hook always ends with [isLoading] false; when it
    fails the error is thrown again and neither the hook nor the service
    changes; when it succeeds the hook shows the user of the response as
    signed in, which is what the service knows too provided the access
    token of the response is not empty. With an empty access token the
    hook says signed in and the service says not. *)
Theorem hook_follows_service
    (JSON_stringify : Auth.User -> string)
    (JSON_parse : string -> option Auth.User)
    (w : Browser) (h : UseAuth.HookState) :
  in_sync JSON_parse (fst (UseAuth.checkAuth JSON_parse w h))
    (snd (UseAuth.checkAuth JSON_parse w h)) /\
  in_sync JSON_parse (fst (UseAuth.logout w h)) (snd (UseAuth.logout w h)) /\
  (forall fetch username password w' h' r,
      UseAuth.login JSON_stringify fetch username password w h
        = (w', h', r) ->
      UseAuth.isLoading h' = false /\
      match r with
      | Return _ =>
          exists data,
            fetch username password = Auth.Ok (inr data) /\
            UseAuth.user h' = Some (Auth.user data) /\
            UseAuth.isAuthenticated h' = true /\
            (Auth.access (Auth.tokens data) <> "" ->
             in_sync JSON_parse w' h') /\
            (Auth.access (Auth.tokens data) = "" ->
             Auth.isAuthenticated (auth w') = false)
      | Throw e =>
          w' = w /\
          UseAuth.user h' = UseAuth.user h /\
          UseAuth.isAuthenticated h' = UseAuth.isAuthenticated h
      end).
Proof.
  split; [|split].
  - unfold UseAuth.checkAuth, in_sync.
    destruct (getUser_again JSON_parse (auth w)) as (Htok & Hagain).
    destruct (Auth.getUser JSON_parse (auth w)) as [s u] eqn:Hget.
    simpl in *. split.
    + unfold Auth.isAuthenticated. rewrite Htok. reflexivity.
    + rewrite Hagain. reflexivity.
  - unfold UseAuth.logout, in_sync. simpl.
    rewrite getUser_logged_out. split; reflexivity.
  - intros fetch username password w' h' r. unfold UseAuth.login, Auth.login.
    destruct (fetch username password) as [x|[x|d]|[x|data]] eqn:Hf;
      intros [= <- <- <-]; (split; [reflexivity|]);
      try (rewrite set_auth_same; repeat split; reflexivity).
    exists data. split; [reflexivity|]. split; [reflexivity|].
    split; [reflexivity|]. split.
    + intros Hne. unfold in_sync. simpl. split; [|reflexivity].
      unfold Auth.isAuthenticated. simpl. symmetry.
      apply truthy_ne. exact Hne.
    + intros Hempty. unfold Auth.isAuthenticated. simpl.
      rewrite Hempty. reflexivity.
Qed.

Lemma hook_follows_service_witness :
  (exists w' h',
      UseAuth.login write_user (fun _ _ => Auth.Ok (inr login_successful))
        "testuser" "password" visitor_page signed_in_hook
      = (w', h', Return tt) /\
      UseAuth.isLoading h' = false /\
      in_sync read_user w' h') /\
  (exists h',
      UseAuth.login write_user
        (fun _ _ => Auth.NetworkError (Error "Failed to fetch"))
        "testuser" "password" home_page signed_in_hook
      = (home_page, h', Throw (Error "Failed to fetch")) /\
      UseAuth.isAuthenticated h' = true).
Proof.
  split.
  - destruct (hook_follows_service write_user read_user visitor_page
                signed_in_hook) as (_ & _ & Hlogin).
    destruct (Hlogin (fun _ _ => Auth.Ok (inr login_successful))
                "testuser" "password" _ _ _ eq_refl)
      as (Hloading & data & Hdata & _ & _ & Hsync & _).
    injection Hdata as <-.
    eexists _, _. split; [reflexivity|]. split; [exact Hloading|].
    apply Hsync. discriminate.
  - destruct (hook_follows_service write_user read_user home_page
                signed_in_hook) as (_ & _ & Hlogin).
    destruct (Hlogin (fun _ _ => Auth.NetworkError (Error "Failed to fetch"))
                "testuser" "password" _ _ _ eq_refl)
      as (_ & _ & _ & Hauth).
    eexists. split; [reflexivity|]. exact Hauth.
Defined.

End AuthHookFacts.

(* ===================================================================== *)
(** * The screens                                                         *)
(* ===================================================================== *)

Section AppFacts.
Import App.

(** X20. The guard of [renderScreen]. It shows the product form and the
    profile only to a logged-in user; when it returns nothing, the user is
    not logged in, had asked for one of these two screens, and the next
    render shows the login form. After the load effect the user counts as
    logged in exactly when [localStorage] held a non-empty access token and
    a non-empty refresh token; after [handleLogout] the user is logged out
    everywhere and the home screen is shown. *)
Theorem protected_screens_need_login
    (JSON_parse : string -> option Auth.User) (st : State) :
  (forall st' c,
      renderScreen st = (st', Some c) ->
      st' = st /\
      (c = AddProduct \/ c = UserProfile -> isLoggedIn st = true)) /\
  (forall st',
      renderScreen st = (st', None) ->
      isLoggedIn st = false /\
      (currentScreen st = add_product \/ currentScreen st = profile) /\
      renderScreen st' = (st', Some LoginSignup)) /\
  (forall ls,
      isLoggedIn (snd (checkAuth JSON_parse (Auth.getInstance ls) st)) =
      JS.truthy_opt (ls !! "access_token") &&
      JS.truthy_opt (ls !! "refresh_token")) /\
  (forall s,
      credentials_cleared (fst (handleLogout s st)) /\
      isLoggedIn (snd (handleLogout s st)) = false /\
      renderScreen (snd (handleLogout s st))
        = (snd (handleLogout s st), Some HomeFeed)).
Proof.
  repeat apply conj.
  - intros st' c. unfold renderScreen.
    destruct (currentScreen st); destruct (isLoggedIn st) eqn:Hlog; simpl;
      intros [= <- <-]; (split; [reflexivity|]);
      intros [H|H]; (reflexivity || discriminate).
  - intros st'. unfold renderScreen.
    destruct (currentScreen st) eqn:Hscr; destruct (isLoggedIn st) eqn:Hlog;
      simpl; try discriminate; intros [= <-]; auto.
  - intros ls. unfold checkAuth.
    destruct (Auth.getUser JSON_parse (Auth.getInstance ls)) as [s' u].
    simpl. unfold Auth.isAuthenticated, Auth.getInstance,
      Auth.loadTokensFromStorage, Auth.getItem. simpl.
    destruct (ls !! "access_token") as [a|]; simpl; [|reflexivity].
    destruct (ls !! "refresh_token") as [r|]; simpl;
      [|rewrite andb_false_r; reflexivity].
    destruct (JS.truthy a) eqn:Ha; destruct (JS.truthy r) eqn:Hr; simpl;
      try reflexivity. exact Ha.
  - intros s. split; [apply logout_cleared|]. split; reflexivity.
Qed.

Lemma protected_screens_need_login_witness :
  renderScreen
    (snd (checkAuth read_user (Auth.getInstance ∅)
            {| currentScreen := add_product; isLoggedIn := true;
               user := None; showUserMenu := false |}))
  = ({| currentScreen := login; isLoggedIn := false; user := None;
        showUserMenu := false |}, None) /\
  renderScreen
    {| currentScreen := login; isLoggedIn := false; user := None;
       showUserMenu := false |}
  = ({| currentScreen := login; isLoggedIn := false; user := None;
        showUserMenu := false |}, Some LoginSignup).
Proof.
  destruct (protected_screens_need_login read_user
              (snd (checkAuth read_user (Auth.getInstance ∅)
                      {| currentScreen := add_product; isLoggedIn := true;
                         user := None; showUserMenu := false |})))
    as (_ & Hnull & _ & _).
  split; [reflexivity|].
  apply (Hnull {| currentScreen := login; isLoggedIn := false; user := None;
                  showUserMenu := false |}).
  reflexivity.
Defined.

End AppFacts.

Section HomeFeedFacts.
Import HomeFeed.





End HomeFeedFacts.

Section AddProductFacts.
Import Regex Validation AddProduct.

Lemma trimEnd_keeps_head a s :
  is_space a = false -> exists t, trimEnd (String a s) = String a t.
Proof.
  intros Ha. simpl. destruct (trimEnd s); [rewrite Ha|]; eauto.
Qed.

Lemma trimStart_head s :
  trimStart s = "" \/
  exists a t, trimStart s = String a t /\ is_space a = false.
Proof.
  induction s as [|a s IH]; simpl; [auto|].
  destruct (is_space a) eqn:Ha; [exact IH|]. right. eauto.
Qed.

(** What [trim] returns is empty or starts with a visible code unit. *)
Lemma trim_not_blank s : JS.truthy (trim s) = true -> not_blank (trim s).
Proof.
  unfold trim, not_blank.
  destruct (trimStart_head s) as [->|(a & t & -> & Ha)]; [discriminate|].
  destruct (trimEnd_keeps_head a t Ha) as (t' & ->). intros _. simpl.
  rewrite Ha. reflexivity.
Qed.

Lemma includes_In tag tags : includes tag tags = true <-> In tag tags.
Proof.
  unfold includes. rewrite List.existsb_exists. split.
  - intros (x & Hx & Heq). apply String.eqb_eq in Heq. subst x. exact Hx.
  - intros H. exists tag. split; [exact H|apply String.eqb_refl].
Qed.

Lemma NoDup_snoc (x : string) l :
  List.NoDup l -> ~ In x l -> List.NoDup (l ++ [x])%list.
Proof.
  induction 1 as [|y l Hy Hl IH]; simpl; intros Hx.
  - constructor; [auto|constructor].
  - constructor.
    + rewrite List.in_app_iff. simpl. intros [H|[H|[]]]; [auto|].
      apply Hx. auto.
    + apply IH. intros H. apply Hx. auto.
Qed.

Lemma In_removeTag t tagToRemove st :
  In t (tags (removeTag tagToRemove st)) <->
  In t (tags st) /\ t <> tagToRemove.
Proof.
  unfold removeTag. simpl. rewrite List.filter_In, negb_true_iff.
  split; intros [H1 H2]; (split; [exact H1|]).
  - intros ->. rewrite String.eqb_refl in H2. discriminate.
  - apply String.eqb_neq. exact H2.
Qed.

(** X22. The tag editor keeps its tags pairwise different and never blank.
    [addTag] either changes nothing (the typed tag is blank or already
    present) or appends the trimmed tag at the end and clears the input;
    [removeTag] removes the tag and keeps every other tag. *)
Theorem tag_editor_keeps_tags_distinct (tag : string) (st : TagEditor) :
  tags_ok (tags st) ->
  tags_ok (tags (addTag st)) /\
  (addTag st = st \/
   addTag st = {| tags := (tags st ++ [trim (currentTag st)])%list;
                  currentTag := "" |}) /\
  tags_ok (tags (removeTag tag st)) /\
  (forall t, In t (tags (removeTag tag st)) <-> In t (tags st) /\ t <> tag).
Proof.
  intros [Hnodup Hblank]. split; [|split; [|split]].
  - unfold addTag.
    destruct (JS.truthy (trim (currentTag st))) eqn:Htrim; simpl;
      [|split; assumption].
    destruct (includes (trim (currentTag st)) (tags st)) eqn:Hinc; simpl;
      [split; assumption|].
    split.
    + apply NoDup_snoc; [exact Hnodup|].
      intros Hin. apply includes_In in Hin. congruence.
    + apply List.Forall_app. split; [exact Hblank|].
      constructor; [|constructor]. apply trim_not_blank. exact Htrim.
  - unfold addTag.
    destruct (JS.truthy (trim (currentTag st)) &&
              negb (includes (trim (currentTag st)) (tags st))); auto.
  - split.
    + apply List.NoDup_filter. exact Hnodup.
    + unfold removeTag. simpl. rewrite List.Forall_forall in *.
      intros t Ht. apply List.filter_In in Ht. apply Hblank. tauto.
  - intros t. apply In_removeTag.
Qed.

Lemma tag_editor_keeps_tags_distinct_witness :
  tags_ok
    (tags (addTag {| tags := ["ai"; "saas"]; currentTag := "  design " |})) /\
  addTag {| tags := ["ai"; "saas"]; currentTag := "  design " |}
    = {| tags := ["ai"; "saas"; "design"]; currentTag := "" |} /\
  addTag {| tags := ["ai"; "saas"]; currentTag := " saas" |}
    = {| tags := ["ai"; "saas"]; currentTag := " saas" |}.
Proof.
  assert (Hok : tags_ok ["ai"; "saas"]).
  { split.
    - repeat constructor; simpl; intros H; decompose [or] H;
        (discriminate || contradiction).
    - repeat constructor. }
  destruct (tag_editor_keeps_tags_distinct "ai"
              {| tags := ["ai"; "saas"]; currentTag := "  design " |} Hok)
    as (Hadd & _).
  split; [exact Hadd|]. split; reflexivity.
Defined.

Lemma filter_index_spec (k i : Z) (images : list string) :
  filter_index k i images =
  if (i <? k)%Z then images
  else (take (Z.to_nat (i - k)) images ++
        drop (S (Z.to_nat (i - k))) images)%list.
Proof.
  revert k. induction images as [|image rest IH]; intros k.
  - simpl. destruct (i <? k)%Z; [reflexivity|].
    destruct (Z.to_nat (i - k)); reflexivity.
  - simpl. rewrite IH.
    destruct (Z.eqb_spec k i) as [->|Hne]; simpl.
    + rewrite Z.sub_diag. simpl. rewrite drop_0.
      destruct (Z.ltb_spec i (i + 1)); [|lia].
      destruct (Z.ltb_spec i i); [lia|]. reflexivity.
    + destruct (Z.ltb_spec i (k + 1)), (Z.ltb_spec i k);
        try lia; [reflexivity|].
      replace (Z.to_nat (i - k)) with (S (Z.to_nat (i - (k + 1)))) by lia.
      reflexivity.
Qed.

(** X23. [removeImage(i)] removes the image at position [i], counted from
    zero, and keeps the others in their order; with a position that is
    negative or past the end it removes nothing. *)
Theorem removeImage_removes_one (i : Z) (uploadedImages : list string) :
  ((0 <= i < Z.of_nat (List.length uploadedImages))%Z ->
   removeImage i uploadedImages =
     (take (Z.to_nat i) uploadedImages ++
      drop (S (Z.to_nat i)) uploadedImages)%list /\
   S (List.length (removeImage i uploadedImages))
     = List.length uploadedImages) /\
  ((i < 0 \/ Z.of_nat (List.length uploadedImages) <= i)%Z ->
   removeImage i uploadedImages = uploadedImages).
Proof.
  unfold removeImage. rewrite filter_index_spec, Z.sub_0_r. split.
  - intros [Hlo Hhi]. destruct (Z.ltb_spec i 0); [lia|].
    split; [reflexivity|].
    rewrite List.length_app, length_take, length_drop. lia.
  - intros Hout. destruct (Z.ltb_spec i 0); [reflexivity|].
    destruct Hout as [Hneg|Hpast]; [lia|].
    rewrite take_ge, drop_ge by lia. apply List.app_nil_r.
Qed.

Lemma removeImage_removes_one_witness :
  removeImage 1 ["first"; "second"; "third"] = ["first"; "third"] /\
  removeImage 3 ["first"; "second"; "third"] = ["first"; "second"; "third"].
Proof.
  destruct (removeImage_removes_one 1 ["first"; "second"; "third"])
    as [Hin _].
  destruct (removeImage_removes_one 3 ["first"; "second"; "third"])
    as [_ Hout].
  split.
  - apply Hin. simpl. lia.
  - apply Hout. simpl. lia.
Defined.

End AddProductFacts.

Section LoginSignupFacts.
Import LoginSignup.

Lemma split_space_cons s : exists piece pieces, split_space s = piece :: pieces.
Proof.
  induction s as [|a s (piece & pieces & IH)]; simpl; [eauto|].
  destruct (Ascii.eqb a " "); [eauto|]. rewrite IH. eauto.
Qed.

Lemma join_space_cons piece pieces :
  pieces <> [] ->
  join_space (piece :: pieces) = piece ++ " " ++ join_space pieces.
Proof. destruct pieces; [contradiction|reflexivity]. Qed.

Lemma join_space_head a piece pieces :
  join_space (String a piece :: pieces) = String a (join_space (piece :: pieces)).
Proof. destruct pieces; reflexivity. Qed.

(** [s.split(' ').join(' ')] is [s]. *)
Lemma join_split_space s : join_space (split_space s) = s.
Proof.
  induction s as [|a s IH]; [reflexivity|]. simpl.
  destruct (split_space_cons s) as (piece & pieces & Hs).
  destruct (Ascii.eqb_spec a " ") as [->|Hne].
  - rewrite join_space_cons by (rewrite Hs; discriminate).
    rewrite IH. reflexivity.
  - rewrite Hs in *. rewrite join_space_head, IH. reflexivity.
Qed.

(** The first piece holds no space, and it is the only piece exactly when
    the string holds no space. *)
Lemma split_space_head s piece pieces :
  split_space s = piece :: pieces ->
  some_char is_blank piece = false /\
  (pieces = [] <-> some_char is_blank s = false).
Proof.
  revert piece pieces. induction s as [|a s IH]; intros piece pieces; simpl.
  - intros [= <- <-]. split; [reflexivity|]. split; reflexivity.
  - destruct (split_space_cons s) as (p & ps & Hs). rewrite Hs.
    destruct (IH _ _ Hs) as [Hp Hps].
    unfold is_blank at 2. destruct (Ascii.eqb a " ") eqn:Ha; simpl.
    + intros [= <- <-]. split; [reflexivity|]. split; discriminate.
    + intros [= <- <-]. simpl. unfold is_blank at 1. rewrite Ha. simpl.
      split; [exact Hp|exact Hps].
Qed.

(** X24. Splitting the full name of the sign-up form. The first name is
    the text before the first space and holds no space; the last name is
    everything after that space. A full name without a space is the first
    name, with an empty last name; a full name with a space is the first
    name, a space and the last name, so nothing typed is lost. *)
Theorem full_name_is_split_at_first_space (fullName : string) :
  some_char is_blank (first_name_of fullName) = false /\
  (some_char is_blank fullName = false ->
   first_name_of fullName = fullName /\ last_name_of fullName = "") /\
  (some_char is_blank fullName = true ->
   fullName = first_name_of fullName ++ " " ++ last_name_of fullName).
Proof.
  unfold first_name_of, last_name_of.
  destruct (split_space_cons fullName) as (piece & pieces & Hs).
  pose proof (join_split_space fullName) as Hjoin.
  destruct (split_space_head _ _ _ Hs) as [Hpiece Hpieces].
  rewrite Hs in *. simpl List.head. simpl List.tl.
  assert (Hfirst : JS.or_else (Some piece) "" = piece)
    by (destruct piece; reflexivity).
  assert (Hlast : JS.or_else (Some (join_space pieces)) "" = join_space pieces)
    by (destruct (join_space pieces); reflexivity).
  rewrite Hfirst, Hlast. split; [exact Hpiece|]. split.
  - intros Hnone. apply Hpieces in Hnone. subst pieces.
    simpl in Hjoin. auto.
  - intros Hsome. rewrite <- Hjoin. apply join_space_cons.
    intros Hnil. apply Hpieces in Hnil. congruence.
Qed.

Lemma full_name_is_split_at_first_space_witness :
  first_name_of "Ada King Lovelace" = "Ada" /\
  "Ada King Lovelace" =
    first_name_of "Ada King Lovelace" ++ " " ++
    last_name_of "Ada King Lovelace" /\
  first_name_of "Ada" = "Ada" /\ last_name_of "Ada" = "".
Proof.
  destruct (full_name_is_split_at_first_space "Ada King Lovelace")
    as (_ & _ & Hsplit).
  destruct (full_name_is_split_at_first_space "Ada") as (_ & Hone & _).
  split; [reflexivity|]. split; [apply Hsplit; reflexivity|].
  apply Hone. reflexivity.
Defined.

End LoginSignupFacts.

Section ProductDetailFacts.
Import ProductDetail.

(** X25. The handlers of the product screen; [rendered] is the state shown
    by the render a handler belongs to, [st] the state when its updates are
    applied.  They call the API only for a signed-in user, and
    [handleComment] only when the comment typed in its render is not blank;
    a visitor who is not signed in is sent to the login screen and nothing
    else happens.  Whenever no call was made or the call was rejected the
    state is left as it was, input included.  A successful comment is
    appended after the existing ones and the input is cleared, product and
    flag kept.  Two successful upvotes, the second handled by the render
    that shows the result of the first, restore the flag and the count
    when the count is a safe integer (magnitude below 2^53); a second upvote
    handled by the same render as the first flips the flag once and moves
    the count twice in the same direction. *)
Theorem detail_handlers_are_guarded
    (s : Auth.State) (posted : Api.Settled string) (rendered st : State) :
  (requested (handleUpvote s posted rendered st) = true <->
   Auth.isAuthenticated s = true) /\
  (requested (handleComment s posted rendered st) = true <->
   Auth.isAuthenticated s = true /\
   every_char Regex.is_space (newComment rendered) = false) /\
  (navigate (handleUpvote s posted rendered st) = Some App.login <->
   Auth.isAuthenticated s = false) /\
  (navigate (handleComment s posted rendered st) = Some App.login <->
   Auth.isAuthenticated s = false) /\
  (forall err,
      state (handleUpvote s (Api.Rejected err) rendered st) = st /\
      state (handleComment s (Api.Rejected err) rendered st) = st) /\
  (requested (handleUpvote s posted rendered st) = false ->
   state (handleUpvote s posted rendered st) = st) /\
  (requested (handleComment s posted rendered st) = false ->
   state (handleComment s posted rendered st) = st) /\
  (forall commentData,
      requested (handleComment s (Api.Fulfilled commentData) rendered st)
        = true ->
      state (handleComment s (Api.Fulfilled commentData) rendered st)
        = {| product := product st;
             comments := (comments st ++ [commentData])%list;
             isUpvoted := isUpvoted st;
             newComment := "" |}) /\
  (forall body1 body2,
      Auth.isAuthenticated s = true ->
      JS.safe_integer (upvote_count (product st)) ->
      state (handleUpvote s (Api.Fulfilled body2)
               (state (handleUpvote s (Api.Fulfilled body1) st st))
               (state (handleUpvote s (Api.Fulfilled body1) st st))) = st) /\
  (forall body1 body2,
      Auth.isAuthenticated s = true ->
      state (handleUpvote s (Api.Fulfilled body2) st
               (state (handleUpvote s (Api.Fulfilled body1) st st)))
      = {| product :=
             {| upvote_count :=
                  if isUpvoted st
                  then JS.number_sub
                         (JS.number_sub (upvote_count (product st)) 1) 1
                  else JS.number_add
                         (JS.number_add (upvote_count (product st)) 1) 1;
                other_fields := other_fields (product st) |};
           comments := comments st;
           isUpvoted := negb (isUpvoted st);
           newComment := newComment st |}).
Proof.
  unfold handleUpvote, handleComment.
  pose proof (truthy_trim (newComment rendered)) as Hblank.
  destruct (Auth.isAuthenticated s) eqn:Hauth; simpl.
  - destruct (JS.truthy (Validation.trim (newComment rendered))) eqn:Htrim;
      simpl in Hblank; rewrite <- Hblank;
      destruct posted as [body|err]; simpl;
      repeat split; intros; try reflexivity; try discriminate; try tauto;
      try (destruct st as [[n o] cs up c]; simpl in *; destruct up; simpl;
           [rewrite (number_sub_safe n) by assumption;
            unfold JS.number_add, JS.safe_integer in *;
            rewrite round_to_double_exact by lia
           |rewrite (number_add_safe n) by assumption;
            unfold JS.number_sub, JS.safe_integer in *;
            rewrite round_to_double_exact by lia];
           repeat f_equal; lia);
      try (destruct (isUpvoted st); reflexivity);
      try (match goal with H : _ /\ _ |- _ => destruct H; discriminate end).
  - repeat split; intros; try reflexivity; try discriminate;
      try tauto; destruct H; discriminate.
Qed.

Lemma detail_handlers_are_guarded_witness :
  state
    (handleComment signed_in (Api.Fulfilled "Nice")
       {| product := {| upvote_count := 3; other_fields := "" |};
          comments := ["First"]; isUpvoted := false;
          newComment := "   " |}
       {| product := {| upvote_count := 3; other_fields := "" |};
          comments := ["First"]; isUpvoted := false; newComment := "   " |})
  = {| product := {| upvote_count := 3; other_fields := "" |};
       comments := ["First"]; isUpvoted := false; newComment := "   " |} /\
  state
    (handleUpvote signed_in (Api.Fulfilled "ok")
       {| product := {| upvote_count := 4; other_fields := "" |};
          comments := ["First"]; isUpvoted := true; newComment := "" |}
       {| product := {| upvote_count := 4; other_fields := "" |};
          comments := ["First"]; isUpvoted := true; newComment := "" |})
  = {| product := {| upvote_count := 3; other_fields := "" |};
       comments := ["First"]; isUpvoted := false; newComment := "" |}.
Proof.
  pose (blank := {| product := {| upvote_count := 3; other_fields := "" |};
                    comments := ["First"]; isUpvoted := false;
                    newComment := "   " |}).
  pose (shown := {| product := {| upvote_count := 3; other_fields := "" |};
                    comments := ["First"]; isUpvoted := false;
                    newComment := "" |}).
  split.
  - destruct (detail_handlers_are_guarded signed_in (Api.Fulfilled "Nice")
                blank blank)
      as (_ & _ & _ & _ & _ & _ & Hsame & _).
    apply Hsame. reflexivity.
  - destruct (detail_handlers_are_guarded signed_in (Api.Fulfilled "ok")
                shown shown)
      as (_ & _ & _ & _ & _ & _ & _ & _ & Htwice & _).
    apply (Htwice "ok" "ok"); [reflexivity|].
    unfold JS.safe_integer; simpl. split; reflexivity.
Defined.

(** The same at 2^53: the first upvote leaves the count, the second takes
    1 off. *)
Example detail_upvote_twice_at_2_53 :
  let st := {| product := {| upvote_count := 2 ^ 53; other_fields := "" |};
               comments := []; isUpvoted := false; newComment := "" |} in
  let st1 := state (handleUpvote signed_in (Api.Fulfilled "ok") st st) in
  upvote_count (product st1) = 2 ^ 53 /\
  upvote_count
    (product (state (handleUpvote signed_in (Api.Fulfilled "ok") st1 st1)))
  = 2 ^ 53 - 1.
Proof. split; reflexivity. Qed.

End ProductDetailFacts.
